(** * TD3 agent (td3_pytorch/agent.py): replay buffer, learning step, episode loop

    A shallow embedding of [ReplayBuffer] and [Agent] from
    [src/td3_pytorch/agent.py].

    Numbers.  The program computes on IEEE floats (float32 tensors, float64
    numpy scalars).  The embedding uses exact rationals [Q] for them, so every
    arithmetic statement below is about the real-valued computation the floats
    approximate; equality of such values is [Qeq] ([==]).  Python [int]s are
    [Z]; [%] on ints is floor-modulo, which is [Z.modulo] for a non-zero
    divisor, and raises [ZeroDivisionError] for a zero one.

    Randomness.  The random draws ([random.sample], [normal_],
    [np.random.normal]) are explicit arguments.

    External collaborators.  The networks of [td3.py] ([TD3_Actor],
    [TD3_Critic]), the Adam optimizers and the gymnasium environment are taken
    as parameters, bundled in the record [Collaborators]. *)

From Stdlib Require Import QArith Qminmax Qabs ZArith List Bool Lia Lqa
  Permutation.
Import ListNotations.

Set Implicit Arguments.

Local Open Scope Q_scope.

(** ** Exceptions and results *)

(** The exceptions the modelled code can raise.  [SampleLarger] and
    [SampleNegative] are the two ways of failing the single check
    [if not 0 <= k <= n] of [random.sample]; [UnpackMismatch] is the failed
    5-way tuple unpacking of [zip( *batch)]; all three are Python
    [ValueError]s, as is [ShapeMismatch] (operands that cannot be broadcast
    together) and [NegativeScale] (a negative standard deviation handed to a
    normal sampler).  [NotADraw] is not a Python exception: it marks a list
    of positions that [random.sample] cannot have chosen. *)
Inductive exn : Type :=
| SampleLarger
| SampleNegative
| UnpackMismatch
| ShapeMismatch
| NegativeScale
| ZeroDivisionError
| FileNotFoundError
| NotADraw.

Inductive result (A : Type) : Type :=
| Ok (a : A)
| Raise (e : exn).

Arguments Ok {A} a.
Arguments Raise {A} e.

Definition bind {A B : Type} (r : result A) (k : A -> result B) : result B :=
  match r with
  | Ok a => k a
  | Raise e => Raise e
  end.

Notation "x <- c ;; k" := (bind c (fun x => k))
  (at level 61, c at next level, right associativity).
Notation "' p <- c ;; k" := (bind c (fun x => match x with p => k end))
  (at level 61, p pattern, c at next level, right associativity).

(** ** Numeric helpers *)

Definition Vec : Type := list Q.

Definition Qltb (x y : Q) : bool := negb (Qle_bool y x).

(** [numpy.clip(x, lo, hi)] and [torch.clamp(x, lo, hi)] on one component:
    [min(max(x, lo), hi)]. *)
Definition clamp (x lo hi : Q) : Q := Qmin (Qmax x lo) hi.

Definition vclamp (v : Vec) (lo hi : Q) : Vec := map (fun x => clamp x lo hi) v.

(** Element-wise combination of two equally long vectors. *)
Fixpoint map2 {A B C : Type} (f : A -> B -> C) (l1 : list A) (l2 : list B) : list C :=
  match l1, l2 with
  | x :: l1', y :: l2' => f x y :: map2 f l1' l2'
  | _, _ => []
  end.

(** Addition of two 1-D arrays (or of the rows of two 2-D tensors with equally
    many rows) under the broadcasting rule: equal lengths add element-wise,
    a length-1 operand is stretched, anything else is refused. *)
Definition bc_add (a b : Vec) : result Vec :=
  if Nat.eqb (length a) (length b) then Ok (map2 Qplus a b)
  else match a, b with
       | [x], _ => Ok (map (fun y => x + y) b)
       | _, [y] => Ok (map (fun x => x + y) a)
       | _, _ => Raise ShapeMismatch
       end.

Fixpoint mapM {A B : Type} (f : A -> result B) (l : list A) : result (list B) :=
  match l with
  | [] => Ok []
  | x :: l' => y <- f x ;; ys <- mapM f l' ;; Ok (y :: ys)
  end.

Definition Q_of_bool (b : bool) : Q := if b then 1 else 0.

Definition vsum (l : list Q) : Q := fold_right Qplus 0 l.

(** [np.mean] of a non-empty list. *)
Definition mean (l : list Q) : Q := vsum l / inject_Z (Z.of_nat (length l)).

(** [l[-n:]] for a non-negative [n]. *)
Definition lastn {A : Type} (n : nat) (l : list A) : list A :=
  skipn (length l - n) l.

(** ** Replay buffer *)

Record Transition : Type := mkTransition {
  t_state : Vec;
  t_action : Vec;
  t_reward : Q;
  t_next_state : Vec;
  t_done : bool
}.

(** [collections.deque(maxlen=max_size)]: the items oldest first. *)
Record ReplayBuffer : Type := mkReplayBuffer {
  buffer : list Transition;
  maxlen : nat
}.

Module ReplayBuffer.

(** [ReplayBuffer.__init__]. *)
Definition init (max_size : nat) : ReplayBuffer :=
  mkReplayBuffer [] max_size.

(** [ReplayBuffer.add]: [deque.append] puts the item at the right end and,
    when the deque has grown past [maxlen], drops the leftmost item. *)
Definition add (rb : ReplayBuffer) (t : Transition) : ReplayBuffer :=
  let b := buffer rb ++ [t] in
  mkReplayBuffer (if Nat.ltb (maxlen rb) (length b) then tl b else b) (maxlen rb).

(** [ReplayBuffer.size]. *)
Definition size (rb : ReplayBuffer) : nat := length (buffer rb).

Fixpoint nodupb (l : list nat) : bool :=
  match l with
  | [] => true
  | i :: l' => negb (existsb (Nat.eqb i) l') && nodupb l'
  end.

(** What [random.sample(population, k)] may choose when the population has
    [n] items: [k] pairwise distinct positions below [n]. *)
Definition is_drawb (n : nat) (k : Z) (draw : list nat) : bool :=
  (Z.of_nat (length draw) =? k)%Z && nodupb draw
  && forallb (fun i => Nat.ltb i n) draw.

Definition is_draw (n : nat) (k : Z) (draw : list nat) : Prop :=
  Z.of_nat (length draw) = k /\ NoDup draw /\ Forall (fun i => (i < n)%nat) draw.

(** [random.sample(self.buffer, batch_size)] with the chosen positions
    [draw] made explicit: the check [if not 0 <= k <= n: raise ValueError],
    then the items at the chosen positions, in the order chosen. *)
Definition random_sample (pop : list Transition) (k : Z) (draw : list nat)
  : result (list Transition) :=
  if (k <? 0)%Z then Raise SampleNegative
  else if (Z.of_nat (length pop) <? k)%Z then Raise SampleLarger
  else if negb (is_drawb (length pop) k draw) then Raise NotADraw
  else mapM (fun i => match nth_error pop i with
                      | Some t => Ok t
                      | None => Raise NotADraw
                      end) draw.

(** The five arrays [sample] returns. *)
Record Batch : Type := mkBatch {
  states : list Vec;
  actions : list Vec;
  rewards : list Q;
  next_states : list Vec;
  dones : list bool
}.

(** [ReplayBuffer.sample]: [zip( *batch)] transposes the sampled rows into
    five columns; with an empty batch it yields nothing and the unpacking
    into five names fails. *)
Definition sample (rb : ReplayBuffer) (batch_size : Z) (draw : list nat)
  : result Batch :=
  batch <- random_sample (buffer rb) batch_size draw ;;
  match batch with
  | [] => Raise UnpackMismatch
  | _ :: _ =>
      Ok (mkBatch (map t_state batch) (map t_action batch) (map t_reward batch)
                  (map t_next_state batch) (map t_done batch))
  end.

(** A store after a sequence of [add] calls. *)
Definition add_all (rb : ReplayBuffer) (ts : list Transition) : ReplayBuffer :=
  fold_left add ts rb.

End ReplayBuffer.

(** ** Hyperparameters and external collaborators *)

(** The entries of [hyperparameters.yml] the modelled code reads. *)
Record Hyper : Type := mkHyper {
  action_dim : nat;
  action_low : Q;
  action_high : Q;
  replay_buffer_size : nat;
  batch_size : Z;
  discount : Q;
  tau : Q;
  policy_noise : Q;
  noise_clip : Q;
  policy_freq : Z;
  max_timestep : Z;
  max_episodes : Z
}.

(** A parameter tensor, flattened, and the parameter list of a network
    ([module.parameters()]). *)
Definition Tensor : Type := list Q.
Definition Params : Type := list Tensor.

(** What the agent uses and this file does not define: the forward passes of
    the networks of [td3.py] on one row, one step of each Adam optimizer on
    the loss the agent builds (everything that loss depends on is an
    argument), and the gymnasium environment. *)
Record Collaborators : Type := mkCollaborators {
  OptState : Type;
  Env : Type;
  actor_forward : Params -> Vec -> Vec;
  critic_forward : Params -> Vec -> Vec -> Q * Q;
  critic_optimize :
    OptState -> Params -> list Vec -> list Vec -> list Q -> OptState * Params;
  actor_optimize :
    OptState -> Params -> Params -> list Vec -> OptState * Params;
  env_reset : Env -> Env * Vec;
  env_step : Env -> Vec -> Env * (Vec * Q * bool * bool)
}.

(** ** Observable effects *)

Inductive LogMsg : Type :=
| TrainingStarting
| RunStarting
| AverageReward (average_reward : Q) (episode : Z)
| NewBestAverageReward (best_average_reward : Q) (episode : Z)
| NewBestReward (episode_reward : Q) (percent : Q) (episode : Z)
| ThisEpisodeReward (episode_reward : Q).

(** The effects of the agent on the outside, and its three kinds of parameter
    update, in the order they happen.  [CriticStep] records the label
    [target_Q] the critic was regressed on. *)
Inductive Event : Type :=
| CriticStep (target_Q : list Q)
| ActorStep
| TargetSync
| Save
| SaveGraph
| Print (m : LogMsg)
| LogFile (m : LogMsg).

Definition is_critic_step (e : Event) : bool :=
  match e with CriticStep _ => true | _ => false end.
Definition is_actor_step (e : Event) : bool :=
  match e with ActorStep => true | _ => false end.
Definition is_target_sync (e : Event) : bool :=
  match e with TargetSync => true | _ => false end.
Definition is_save (e : Event) : bool :=
  match e with Save => true | _ => false end.

Definition count (p : Event -> bool) (tr : list Event) : nat :=
  length (filter p tr).

(** [-np.inf] or a finite number. *)
Inductive Best : Type :=
| NegInf
| Fin (q : Q).

(** [x > best]. *)
Definition gt_best (x : Q) (best : Best) : bool :=
  match best with
  | NegInf => true
  | Fin b => Qltb b x
  end.

(** [self.max_episodes] after [__init__]: [range(n)] or [itertools.count()]. *)
Inductive Episodes : Type :=
| Range (n : Z)
| Count.

(** Outcome of a loop run with a bound on its iterations. *)
Inductive outcome (A : Type) : Type :=
| Finished (a : A)
| Threw (e : exn)
| OutOfFuel.

Arguments Finished {A} a.
Arguments Threw {A} e.
Arguments OutOfFuel {A}.

(** ** Tensor operations of the learning step *)

Fixpoint imap_from {A B : Type} (f : nat -> A -> B) (i : nat) (l : list A) : list B :=
  match l with
  | [] => []
  | x :: l' => f i x :: imap_from f (S i) l'
  end.

(** [np.random.normal(0, scale, size=n)]: [z] holds the standard normal
    draws. *)
Definition np_random_normal (scale : Q) (n : nat) (z : nat -> Q) : result Vec :=
  if Qltb scale 0 then Raise NegativeScale
  else Ok (map (fun i => 0 + scale * z i) (seq 0 n)).

(** [torch.FloatTensor(rows).data.normal_(0, std)]: a tensor of the shape of
    [rows] filled with normal draws. *)
Definition normal_like (rows : list Vec) (std : Q) (z : nat -> nat -> Q)
  : result (list Vec) :=
  if Qltb std 0 then Raise NegativeScale
  else Ok (imap_from (fun i row => imap_from (fun j _ => 0 + std * z i j) 0 row) 0 rows).

(** Row-wise sum of two 2-D tensors with equally many rows. *)
Definition rows_add (a b : list Vec) : result (list Vec) :=
  mapM (fun ab => bc_add (fst ab) (snd ab)) (combine a b).

(** [reward + (1 - done) * discount * torch.min(target_Q1, target_Q2)] on
    column tensors. *)
Definition target_Q (discount : Q) (reward done target_Q1 target_Q2 : list Q) : list Q :=
  let tq := map2 Qmin target_Q1 target_Q2 in
  map2 Qplus reward
       (map2 Qmult (map (fun d => (1 - d) * discount) done) tq).

(** One pass of [for param, target_param in zip(...)]: the target tensor is
    overwritten in place by [tau * param + (1 - tau) * target_param].  The
    two networks are built from the same class with the same arguments, so
    the tensors pair up and have equal shapes; a target entry without a
    partner is left as it is. *)
Fixpoint polyak (tau : Q) (param target_param : Tensor) : Tensor :=
  match param, target_param with
  | x :: p', y :: t' => (tau * x + (1 - tau) * y) :: polyak tau p' t'
  | _, _ => target_param
  end.

Fixpoint soft_update (tau : Q) (live target : Params) : Params :=
  match live, target with
  | p :: live', t :: target' => polyak tau p t :: soft_update tau live' target'
  | _, _ => target
  end.

(** ** The agent *)

Section AgentModel.

Variable W : Collaborators.
Variable hp : Hyper.

(** The fields of [Agent] that change while it runs.  [disk] is the pair of
    checkpoint files [<set>_actor.pth], [<set>_critic.pth]; [trace] lists the
    events so far, oldest first. *)
Record Agent : Type := mkAgent {
  replay_buffer : ReplayBuffer;
  total_it : Z;
  actor : Params;
  actor_target : Params;
  critic : Params;
  critic_target : Params;
  actor_optimizer : OptState W;
  critic_optimizer : OptState W;
  rewards_per_episode : list Q;
  last_graph_update_time : Q;
  episodes : Episodes;
  env : Env W;
  disk : option (Params * Params);
  trace : list Event
}.

Definition emit (ag : Agent) (evs : list Event) : Agent :=
  mkAgent (replay_buffer ag) (total_it ag) (actor ag) (actor_target ag)
          (critic ag) (critic_target ag) (actor_optimizer ag)
          (critic_optimizer ag) (rewards_per_episode ag)
          (last_graph_update_time ag) (episodes ag) (env ag) (disk ag)
          (trace ag ++ evs).

Definition set_replay_buffer (ag : Agent) (rb : ReplayBuffer) : Agent :=
  mkAgent rb (total_it ag) (actor ag) (actor_target ag)
          (critic ag) (critic_target ag) (actor_optimizer ag)
          (critic_optimizer ag) (rewards_per_episode ag)
          (last_graph_update_time ag) (episodes ag) (env ag) (disk ag)
          (trace ag).

Definition set_env (ag : Agent) (e : Env W) : Agent :=
  mkAgent (replay_buffer ag) (total_it ag) (actor ag) (actor_target ag)
          (critic ag) (critic_target ag) (actor_optimizer ag)
          (critic_optimizer ag) (rewards_per_episode ag)
          (last_graph_update_time ag) (episodes ag) e (disk ag)
          (trace ag).

(** [Agent.save]: both live parameter sets go to disk. *)
Definition save (ag : Agent) : Agent :=
  mkAgent (replay_buffer ag) (total_it ag) (actor ag) (actor_target ag)
          (critic ag) (critic_target ag) (actor_optimizer ag)
          (critic_optimizer ag) (rewards_per_episode ag)
          (last_graph_update_time ag) (episodes ag) (env ag)
          (Some (actor ag, critic ag))
          (trace ag ++ [Save]).

(** [Agent.load]: both live parameter sets are read back; a missing file
    makes [torch.load] fail. *)
Definition load (ag : Agent) : result Agent :=
  match disk ag with
  | None => Raise FileNotFoundError
  | Some (a, c) =>
      Ok (mkAgent (replay_buffer ag) (total_it ag) a (actor_target ag)
                  c (critic_target ag) (actor_optimizer ag)
                  (critic_optimizer ag) (rewards_per_episode ag)
                  (last_graph_update_time ag) (episodes ag) (env ag) (disk ag)
                  (trace ag))
  end.

(** [Agent.__init__] after the configuration is read and the environment
    and the networks are made: [actor0], [critic0] are the freshly
    initialised live parameters, [files] what is on disk, [start_time] the
    clock reading. *)
Definition init (is_training endless continue_training : bool)
           (actor0 critic0 : Params) (opt_a opt_c : OptState W)
           (e : Env W) (files : option (Params * Params)) (start_time : Q)
  : result Agent :=
  let eps := if endless || negb is_training then Count
             else Range (max_episodes hp) in
  let ag := mkAgent (ReplayBuffer.init (replay_buffer_size hp)) 0%Z
                    actor0 actor0 critic0 critic0 opt_a opt_c
                    [] start_time eps e files [] in
  if is_training then
    let ag := emit ag [Print TrainingStarting; LogFile TrainingStarting] in
    if continue_training then load ag else Ok ag
  else
    ag <- load ag ;;
    Ok (emit ag [Print RunStarting]).

(** [Agent.select_action]: the live policy on one state. *)
Definition select_action (ag : Agent) (state : Vec) : Vec :=
  actor_forward W (actor ag) state.

(** The exploring action of the training mode of [run]:
    [(action + noise).clip(-self.action_high, self.action_high)]. *)
Definition explore_action (action : Vec) (z : nat -> Q) : result Vec :=
  noise <- np_random_normal (action_high hp * policy_noise hp) (action_dim hp) z ;;
  s <- bc_add action noise ;;
  Ok (vclamp s (- action_high hp) (action_high hp)).

(** The smoothed target action of [train]:
    [noise = normal_(0, policy_noise).clamp(-noise_clip, noise_clip)],
    [next_action = (actor_target(next_state) + noise).clamp(-action_high, action_high)]. *)
Definition smoothed_action (target : Params) (acts next_state : list Vec)
           (z : nat -> nat -> Q) : result (list Vec) :=
  raw <- normal_like acts (policy_noise hp) z ;;
  let noise := map (fun row => vclamp row (- noise_clip hp) (noise_clip hp)) raw in
  s <- rows_add (map (actor_forward W target) next_state) noise ;;
  Ok (map (fun row => vclamp row (- action_high hp) (action_high hp)) s).

(** The random draws of one learning step. *)
Record TrainRand : Type := mkTrainRand {
  draw : list nat;
  smooth : nat -> nat -> Q
}.

(** The label of the critic regression in [train], from the sampled batch
    and the target networks. *)
Definition train_target (ag : Agent) (b : ReplayBuffer.Batch) (z : nat -> nat -> Q)
  : result (list Q) :=
  let reward := ReplayBuffer.rewards b in
  let done := map Q_of_bool (ReplayBuffer.dones b) in
  next_action <- smoothed_action (actor_target ag) (ReplayBuffer.actions b)
                                 (ReplayBuffer.next_states b) z ;;
  let qs := map2 (critic_forward W (critic_target ag))
                 (ReplayBuffer.next_states b) next_action in
  Ok (target_Q (discount hp) reward done (map fst qs) (map snd qs)).

(** [Agent.train]. *)
Definition train (ag : Agent) (r : TrainRand) : result Agent :=
  b <- ReplayBuffer.sample (replay_buffer ag) (batch_size hp) (draw r) ;;
  tq <- train_target ag b (smooth r) ;;
  let '(copt, c) :=
    critic_optimize W (critic_optimizer ag) (critic ag)
                    (ReplayBuffer.states b) (ReplayBuffer.actions b) tq in
  let tr1 := trace ag ++ [CriticStep tq] in
  if (policy_freq hp =? 0)%Z then Raise ZeroDivisionError
  else if (total_it ag mod policy_freq hp =? 0)%Z then
    let '(aopt, a) :=
      actor_optimize W (actor_optimizer ag) (actor ag) c (ReplayBuffer.states b) in
    Ok (mkAgent (replay_buffer ag) (total_it ag + 1)%Z
                a (soft_update (tau hp) a (actor_target ag))
                c (soft_update (tau hp) c (critic_target ag))
                aopt copt (rewards_per_episode ag)
                (last_graph_update_time ag) (episodes ag) (env ag) (disk ag)
                (tr1 ++ [ActorStep; TargetSync]))
  else
    Ok (mkAgent (replay_buffer ag) (total_it ag + 1)%Z
                (actor ag) (actor_target ag)
                c (critic_target ag)
                (actor_optimizer ag) copt (rewards_per_episode ag)
                (last_graph_update_time ag) (episodes ag) (env ag) (disk ag)
                tr1).

(** *** The episode loop of [Agent.run] *)

(** The local variables of [run] that live across the steps of one
    episode. *)
Record Locals : Type := mkLocals {
  state : Vec;
  terminated : bool;
  truncated : bool;
  episode_reward : Q;
  step_count : Z
}.

(** The random draws of one environment step. *)
Record StepRand : Type := mkStepRand {
  explore : nat -> Q;
  learn : TrainRand
}.

(** The condition of the [while] loop. *)
Definition loop_cond (lc : Locals) : bool :=
  negb (terminated lc) && negb (truncated lc)
  && negb (step_count lc =? max_timestep hp)%Z.

(** The action handed to the environment. *)
Definition run_action (is_training : bool) (ag : Agent) (lc : Locals)
           (r : StepRand) : result Vec :=
  let action := select_action ag (state lc) in
  if is_training then explore_action action (explore r) else Ok action.

(** The guarded call of [train]:
    [if self.replay_buffer.size() > self.batch_size and
        step_count % self.policy_freq == 0: self.train()]. *)
Definition maybe_train (ag : Agent) (lc : Locals) (r : StepRand) : result Agent :=
  if (batch_size hp <? Z.of_nat (ReplayBuffer.size (replay_buffer ag)))%Z then
    if (policy_freq hp =? 0)%Z then Raise ZeroDivisionError
    else if (step_count lc mod policy_freq hp =? 0)%Z then train ag (learn r)
    else Ok ag
  else Ok ag.

(** The body of the [while] loop. *)
Definition step (is_training : bool) (ag : Agent) (lc : Locals) (r : StepRand)
  : result (Agent * Locals) :=
  action <- run_action is_training ag lc r ;;
  let '(e, (next_state, reward, term_env, trunc)) := env_step W (env ag) action in
  let ag := set_env ag e in
  let term := (step_count lc =? max_timestep hp - 1)%Z || term_env in
  ag <- (if is_training then
           let t := mkTransition (state lc) action reward next_state term in
           maybe_train (set_replay_buffer ag (ReplayBuffer.add (replay_buffer ag) t))
                       lc r
         else Ok ag) ;;
  Ok (ag, mkLocals next_state term trunc (episode_reward lc + reward)
                   (step_count lc + 1)%Z).

(** The [while] loop, run for at most [fuel] iterations; [rnd i] holds the
    draws of iteration [i]. *)
Fixpoint steps (fuel : nat) (is_training : bool) (rnd : nat -> StepRand)
         (i : nat) (ag : Agent) (lc : Locals) : outcome (Agent * Locals) :=
  if loop_cond lc then
    match fuel with
    | O => OutOfFuel
    | S fuel' =>
        match step is_training ag lc (rnd i) with
        | Ok (ag', lc') => steps fuel' is_training rnd (S i) ag' lc'
        | Raise e => Threw e
        end
    end
  else Finished (ag, lc).

(** The two trackers of [run]. *)
Record Trackers : Type := mkTrackers {
  best_reward : Best;
  best_average_reward : Best
}.

(** The percentage of the new-best message:
    [abs((episode_reward - best_reward) / best_reward) * 100]; dividing by a
    zero float raises. *)
Definition percent_change (episode_reward best_reward : Q) : result Q :=
  if Qeq_bool best_reward 0 then Raise ZeroDivisionError
  else Ok (Qabs ((episode_reward - best_reward) / best_reward) * 100).

(** The block [if (episode + 1) % 100 == 0: ...]. *)
Definition average_block (episode : Z) (ag : Agent) (tk : Trackers)
  : Agent * Trackers :=
  if ((episode + 1) mod 100 =? 0)%Z then
    let average_reward := mean (lastn 100 (rewards_per_episode ag)) in
    let m := AverageReward average_reward (episode + 1) in
    let ag := emit ag [Print m; LogFile m] in
    if gt_best average_reward (best_average_reward tk) then
      let m' := NewBestAverageReward average_reward (episode + 1) in
      (emit (save ag) [Print m'; LogFile m'],
       mkTrackers (best_reward tk) (Fin average_reward))
    else (ag, tk)
  else (ag, tk).

(** The block [if episode_reward > best_reward and episode > 0: ...]. *)
Definition best_block (episode : Z) (episode_reward : Q) (ag : Agent)
           (tk : Trackers) : result (Agent * Trackers) :=
  if gt_best episode_reward (best_reward tk) && (0 <? episode)%Z then
    let tk := mkTrackers (Fin episode_reward) (best_average_reward tk) in
    match best_reward tk with
    | Fin b =>
        pct <- percent_change episode_reward b ;;
        Ok (emit ag [Print (NewBestReward episode_reward pct episode)], tk)
    | NegInf => Ok (ag, tk)
    end
  else Ok (ag, tk).

(** What follows the [while] loop in one iteration of the episode loop;
    [now] is the clock reading, in seconds. *)
Definition episode_end (is_training : bool) (episode : Z) (episode_reward : Q)
           (now : Q) (ag : Agent) (tk : Trackers) : result (Agent * Trackers) :=
  let ag := mkAgent (replay_buffer ag) (total_it ag) (actor ag) (actor_target ag)
                    (critic ag) (critic_target ag) (actor_optimizer ag)
                    (critic_optimizer ag)
                    (rewards_per_episode ag ++ [episode_reward])
                    (last_graph_update_time ag) (episodes ag) (env ag) (disk ag)
                    (trace ag) in
  if is_training then
    let ag :=
      if Qltb 10 (now - last_graph_update_time ag) then
        mkAgent (replay_buffer ag) (total_it ag) (actor ag) (actor_target ag)
                (critic ag) (critic_target ag) (actor_optimizer ag)
                (critic_optimizer ag) (rewards_per_episode ag)
                now (episodes ag) (env ag) (disk ag)
                (trace ag ++ [SaveGraph])
      else ag in
    let '(ag, tk) := average_block episode ag tk in
    best_block episode episode_reward ag tk
  else Ok (emit ag [Print (ThisEpisodeReward episode_reward)], tk).

(** The draws and clock reading of one episode. *)
Record EpisodeRand : Type := mkEpisodeRand {
  step_rand : nat -> StepRand;
  now : Q
}.

(** One iteration of [for episode in self.max_episodes]. *)
Definition episode_body (fuel : nat) (is_training : bool) (episode : Z)
           (er : EpisodeRand) (ag : Agent) (tk : Trackers)
  : outcome (Agent * Trackers) :=
  let '(e, s0) := env_reset W (env ag) in
  let ag := set_env ag e in
  match (if is_training then Ok ag else load ag) with
  | Raise e => Threw e
  | Ok ag =>
      match steps fuel is_training (step_rand er) 0 ag
                  (mkLocals s0 false false 0 0%Z) with
      | Finished (ag, lc) =>
          match episode_end is_training episode (episode_reward lc) (now er) ag tk with
          | Ok r => Finished r
          | Raise e => Threw e
          end
      | Threw e => Threw e
      | OutOfFuel => OutOfFuel
      end
  end.

(** Whether the iterator [self.max_episodes] yields [episode] next. *)
Definition has_next (eps : Episodes) (episode : Z) : bool :=
  match eps with
  | Range n => (episode <? n)%Z
  | Count => true
  end.

(** The episode loop from episode number [episode] on, for at most
    [efuel] episodes of at most [fuel] steps each. *)
Fixpoint run_from (efuel fuel : nat) (is_training : bool) (episode : Z)
         (rnd : nat -> EpisodeRand) (ag : Agent) (tk : Trackers)
  : outcome (Agent * Trackers) :=
  if has_next (episodes ag) episode then
    match efuel with
    | O => OutOfFuel
    | S efuel' =>
        match episode_body fuel is_training episode (rnd (Z.to_nat episode)) ag tk with
        | Finished (ag', tk') =>
            run_from efuel' fuel is_training (episode + 1) rnd ag' tk'
        | Threw e => Threw e
        | OutOfFuel => OutOfFuel
        end
    end
  else Finished (ag, tk).

(** [Agent.run]. *)
Definition run (efuel fuel : nat) (is_training : bool)
           (rnd : nat -> EpisodeRand) (ag : Agent) : outcome (Agent * Trackers) :=
  run_from efuel fuel is_training 0 rnd ag (mkTrackers NegInf NegInf).

(** A run of learning steps: before each one the orchestrator may have
    stored further transitions. *)
Fixpoint learning_steps (ag : Agent) (rs : list (list Transition * TrainRand))
  : result Agent :=
  match rs with
  | [] => Ok ag
  | (ts, r) :: rs' =>
      ag' <- train (set_replay_buffer ag (ReplayBuffer.add_all (replay_buffer ag) ts)) r ;;
      learning_steps ag' rs'
  end.

End AgentModel.

(** ** The reward graph and the entry point *)

(** [l[a:b]] for non-negative [a] and [b]. *)
Definition slice {A : Type} (a b : nat) (l : list A) : list A :=
  skipn a (firstn b l).

(** The built-ins [min] and [max] on a sequence: the first smallest (largest)
    item; an empty sequence is refused. *)
Definition list_min (l : list Q) : option Q :=
  match l with
  | [] => None
  | x :: l' => Some (fold_left Qmin l' x)
  end.

Definition list_max (l : list Q) : option Q :=
  match l with
  | [] => None
  | x :: l' => Some (fold_left Qmax l' x)
  end.

(** What [save_graph] draws: the two series and the common limits of the two
    y-axes. *)
Record Graph : Type := mkGraph {
  mean_rewards : list Q;
  mean_total : list Q;
  ylim : Q * Q
}.

(** [Agent.save_graph], up to the drawing itself:
    [mean_rewards[x] = np.mean(rewards[max(0, x-99):(x+1)])],
    [mean_total[x] = np.mean(rewards[0:(x+1)])], and the limits
    [[min(min(mean_rewards), min(mean_total)),
      max(max(mean_rewards), max(mean_total))]];
    [None] is the [ValueError] of [min] on an empty sequence. *)
Definition save_graph (rewards : list Q) : option Graph :=
  let n := length rewards in
  let mr := map (fun x => mean (slice (x - 99) (x + 1) rewards)) (seq 0 n) in
  let mt := map (fun x => mean (slice 0 (x + 1) rewards)) (seq 0 n) in
  match list_min mr, list_min mt, list_max mr, list_max mt with
  | Some a, Some b, Some c, Some d => Some (mkGraph mr mt (Qmin a b, Qmax c d))
  | _, _, _, _ => None
  end.

(** The script body under [if __name__ == '__main__']: build the agent from
    the command-line flags, then [run(args.train)].  The flags [--render] and
    [--use_gpu] only choose the rendering and the device. *)
Definition main (W : Collaborators) (hp : Hyper)
           (train_flag endless continue_training : bool)
           (actor0 critic0 : Params) (opt_a opt_c : OptState W)
           (e : Env W) (files : option (Params * Params)) (start_time : Q)
           (efuel fuel : nat) (rnd : nat -> EpisodeRand)
  : outcome (Agent W * Trackers) :=
  match init W hp train_flag endless continue_training actor0 critic0
             opt_a opt_c e files start_time with
  | Raise x => Threw x
  | Ok ag => run hp efuel fuel train_flag rnd ag
  end.

(** ** Vocabulary of the properties *)

(** The order of the trackers: [-inf] is below every number. *)
Definition le_best (a b : Best) : Prop :=
  match a, b with
  | NegInf, _ => True
  | Fin _, NegInf => False
  | Fin x, Fin y => x <= y
  end.

(** The transitions [ts] follow one another from state [s]: each starts
    where the one before ended. *)
Fixpoint chained (s : Vec) (ts : list Transition) : Prop :=
  match ts with
  | [] => True
  | t :: ts' => t_state t = s /\ chained (t_next_state t) ts'
  end.

(** The state reached from [s] along [ts]. *)
Definition final_state (s : Vec) (ts : list Transition) : Vec :=
  fold_left (fun _ t => t_next_state t) ts s.

(** Every transition of [ts] but the last has its terminal flag clear. *)
Fixpoint live_until_last (ts : list Transition) : Prop :=
  match ts with
  | [] => True
  | t :: ts' => (ts' <> [] -> t_done t = false) /\ live_until_last ts'
  end.

(** [q] to the power [n]. *)
Fixpoint Qpow (q : Q) (n : nat) : Q :=
  match n with
  | O => 1
  | S n' => q * Qpow q n'
  end.

(** Entry-wise equality of parameter lists as rational numbers. *)
Definition params_eq (p q : Params) : Prop := Forall2 (Forall2 Qeq) p q.

(** The store respects its capacity. *)
Definition bounded (rb : ReplayBuffer) : Prop :=
  (length (buffer rb) <= maxlen rb)%nat.

Definition is_save_graph (e : Event) : bool :=
  match e with SaveGraph => true | _ => false end.


(** [ceil (n / pf)], written with floor division. *)
Definition ceil_div (n pf : Z) : Z := ((n + pf - 1) / pf)%Z.

(** The bookkeeping that ties the three kinds of update to the global step
    counter. *)
Definition cadence {W : Collaborators} (hp : Hyper) (ag : Agent W) : Prop :=
  Z.of_nat (count is_critic_step (trace ag)) = total_it ag
  /\ Z.of_nat (count is_actor_step (trace ag))
     = ceil_div (total_it ag) (policy_freq hp)
  /\ Z.of_nat (count is_target_sync (trace ag))
     = ceil_div (total_it ag) (policy_freq hp).

(** Two parameter lists of the same structure. *)
Definition same_shape (live target : Params) : Prop :=
  Forall2 (fun p t : Tensor => length p = length t) live target.

(** Every entry [b] of every tensor of [old] has a partner [a] in [live] and
    has become [tau * a + (1 - tau) * b] in [new]. *)
Definition blended (tau : Q) (live old new : Params) : Prop :=
  length new = length old
  /\ forall i t j b,
       nth_error old i = Some t -> nth_error t j = Some b ->
       exists p a t',
         nth_error live i = Some p /\ nth_error p j = Some a
         /\ nth_error new i = Some t' /\ length t' = length t
         /\ nth_error t' j = Some (tau * a + (1 - tau) * b).


(** The records that only the end of an episode may change: the history of
    returns, the checkpoint files and the number of [Save] events. *)
Definition same_books {W : Collaborators} (ag ag' : Agent W) : Prop :=
  rewards_per_episode ag' = rewards_per_episode ag
  /\ disk ag' = disk ag
  /\ count is_save (trace ag') = count is_save (trace ag).

(** The condition under which the end of an episode writes a checkpoint;
    [history] is the list of returns including this episode's. *)
Definition checkpoint_due (episode : Z) (history : list Q) (tk : Trackers) : bool :=
  ((episode + 1) mod 100 =? 0)%Z
  && gt_best (mean (lastn 100 history)) (best_average_reward tk).

(** ** A small concrete instance

    A one-dimensional toy world on which the definitions above can be run:
    linear networks, optimizers that shift every parameter, and an
    environment that counts its steps. *)

Module Toy.

Definition shift (by_ : Q) (p : Params) : Params :=
  map (map (fun w => w + by_)) p.

Definition W : Collaborators :=
  mkCollaborators
    (OptState := unit) (Env := Z)
    (fun p s => match p with
                | (w :: _) :: _ => [w * vsum s]
                | _ => [0]
                end)
    (fun p s a => (vsum s + vsum a, 2 * vsum a))
    (fun o p ss acts tq => (tt, shift (1 # 10) p))
    (fun o a c ss => (tt, shift (1 # 10) a))
    (fun e => (0%Z, [1]))
    (fun e a => ((e + 1)%Z, ([inject_Z e + vsum a], 1, (3 <=? e)%Z, false))).

(** Symmetric action bounds [-1, 1]. *)
Definition hp : Hyper :=
  mkHyper 1 (-1) 1 3 2%Z (99 # 100) (1 # 2) (1 # 5) (1 # 2) 2%Z 4%Z 2%Z.


Definition t1 : Transition := mkTransition [1] [1 # 2] 1 [2] false.
Definition t2 : Transition := mkTransition [2] [1 # 4] 2 [3] true.
Definition t3 : Transition := mkTransition [3] [0] 3 [4] false.

(** A fresh agent in training mode, as [init] makes it. *)
Definition fresh (h : Hyper) : Agent W :=
  mkAgent W (ReplayBuffer.init (replay_buffer_size h)) 0%Z
          [[1 # 2]] [[1 # 2]] [[1]] [[1]] tt tt [] 0 (Range (max_episodes h))
          0%Z None [Print TrainingStarting; LogFile TrainingStarting].

(** The same agent with three transitions stored. *)
Definition stocked (h : Hyper) : Agent W :=
  set_replay_buffer (fresh h)
    (ReplayBuffer.add_all (replay_buffer (fresh h)) [t1; t2; t3]).

Definition rand : TrainRand := mkTrainRand [2%nat; 1%nat] (fun _ _ => -3).

Definition step_rand0 : StepRand := mkStepRand (fun _ => -10) rand.

Definition episode_rand0 : EpisodeRand :=
  mkEpisodeRand (fun _ => step_rand0) 11.

(** The local variables at the start of an episode. *)
Definition locals0 : Locals := mkLocals [1] false false 0 0%Z.

(** An agent in evaluation mode, as [init] makes it from a checkpoint. *)
Definition evaluating : Agent W :=
  mkAgent W (ReplayBuffer.init (replay_buffer_size hp)) 0%Z
          [[3 # 4]] [[1 # 2]] [[2]] [[1]] tt tt [] 0 Count
          0%Z (Some ([[3 # 4]], [[2]])) [Print RunStarting].

(** Inverted action bounds ([action_high = -1]) and no noise. *)
Definition hp_inverted : Hyper :=
  mkHyper 1 (-2) (-1) 3 2%Z (99 # 100) (1 # 2) 0 (1 # 2) 2%Z 4%Z 2%Z.





End Toy.

(** * Properties *)

Unset Implicit Arguments.

(** ** Basic facts *)

Lemma bind_Ok_inv {A B : Type} (r : result A) (k : A -> result B) (b : B) :
  bind r k = Ok b -> exists a, r = Ok a /\ k a = Ok b.
Proof.
  destruct r as [a|e]; simpl; intros H.
  - exists a; auto.
  - discriminate.
Qed.

Lemma Qltb_lt (x y : Q) : Qltb x y = true <-> x < y.
Proof.
  unfold Qltb. rewrite negb_true_iff.
  split; intros H.
  - apply Qnot_le_lt. intros Hle. apply Qle_bool_iff in Hle. congruence.
  - destruct (Qle_bool y x) eqn:E; [|reflexivity].
    apply Qle_bool_iff in E. exfalso. apply (Qlt_not_le _ _ H E).
Qed.

Lemma tl_skipn {A : Type} (k : nat) (l : list A) :
  tl (skipn k l) = skipn (S k) l.
Proof.
  revert l; induction k as [|k IH]; intros [|x l]; simpl; try reflexivity.
  apply IH.
Qed.

Lemma lastn_length {A : Type} (n : nat) (l : list A) :
  length (lastn n l) = Nat.min n (length l).
Proof.
  unfold lastn. rewrite length_skipn. lia.
Qed.

(** ** Replay buffer: capacity and FIFO eviction *)

Lemma lastn_snoc {A : Type} (c : nat) (l : list A) (t : A) :
  lastn c (l ++ [t]) =
  (if Nat.ltb c (length (lastn c l ++ [t])) then tl (lastn c l ++ [t])
   else lastn c l ++ [t]).
Proof.
  rewrite length_app, lastn_length. simpl.
  unfold lastn. rewrite length_app. simpl.
  destruct (Nat.ltb_spec c (Nat.min c (length l) + 1)) as [H|H].
  - assert (Hc : (c <= length l)%nat) by lia.
    replace (length l + 1 - c)%nat with (S (length l - c)) by lia.
    rewrite <- tl_skipn.
    rewrite skipn_app.
    replace (length l - c - length l)%nat with 0%nat by lia.
    reflexivity.
  - replace (length l + 1 - c)%nat with 0%nat by lia.
    replace (length l - c)%nat with 0%nat by lia.
    reflexivity.
Qed.

Lemma add_all_spec (rb : ReplayBuffer) (hist ts : list Transition) :
  buffer rb = lastn (maxlen rb) hist ->
  ReplayBuffer.add_all rb ts =
  mkReplayBuffer (lastn (maxlen rb) (hist ++ ts)) (maxlen rb).
Proof.
  revert rb hist. induction ts as [|t ts IH]; intros rb hist Hb.
  - simpl. rewrite app_nil_r, <- Hb. destruct rb; reflexivity.
  - simpl. rewrite (IH _ (hist ++ [t])).
    + simpl. rewrite <- app_assoc. reflexivity.
    + simpl. rewrite Hb. symmetry. apply lastn_snoc.
Qed.

(** C3. After any sequence [ts] of [add] calls on a store built with
    capacity [C], the store holds exactly the last [C] transitions of [ts]
    (all of [ts] when there are fewer), oldest first; its size is
    [min C (length ts)], so it never exceeds [C] and is [C] once [C] or more
    transitions were added. *)
Theorem replay_buffer_capacity_fifo (C : nat) (ts : list Transition) :
  let rb := ReplayBuffer.add_all (ReplayBuffer.init C) ts in
  buffer rb = skipn (length ts - C) ts
  /\ ReplayBuffer.size rb = Nat.min C (length ts)
  /\ (ReplayBuffer.size rb <= C)%nat.
Proof.
  intros rb.
  assert (Hrb : rb = mkReplayBuffer (lastn C ts) C).
  { unfold rb. rewrite (add_all_spec (ReplayBuffer.init C) [] ts); reflexivity. }
  rewrite Hrb. unfold ReplayBuffer.size. simpl.
  rewrite lastn_length.
  repeat split; lia.
Qed.

(** The scenario of the specification: capacity 3 and five insertions. *)
Example replay_buffer_scenario (t1 t2 t3 t4 t5 : Transition) :
  buffer (ReplayBuffer.add_all (ReplayBuffer.init 3) [t1; t2; t3; t4; t5])
  = [t3; t4; t5].
Proof. reflexivity. Qed.

(** ** Sampling *)

Lemma mapM_length {A B : Type} (f : A -> result B) (l : list A) (r : list B) :
  mapM f l = Ok r -> length r = length l.
Proof.
  revert r. induction l as [|x l IH]; simpl; intros r H.
  - injection H as <-. reflexivity.
  - apply bind_Ok_inv in H as (y & _ & H).
    apply bind_Ok_inv in H as (ys & Hys & H).
    injection H as <-. simpl. f_equal. auto.
Qed.

Lemma mapM_lookup {A B : Type} (f : A -> result B) (l : list A) (r : list B) :
  mapM f l = Ok r ->
  forall i x, nth_error l i = Some x ->
  exists y, nth_error r i = Some y /\ f x = Ok y.
Proof.
  revert r. induction l as [|a l IH]; simpl; intros r H i x Hi.
  - destruct i; discriminate.
  - apply bind_Ok_inv in H as (y & Hy & H).
    apply bind_Ok_inv in H as (ys & Hys & H).
    injection H as <-.
    destruct i as [|i]; simpl in *.
    + injection Hi as <-. exists y. auto.
    + eapply IH; eauto.
Qed.


Lemma existsb_eqb_In (i : nat) (l : list nat) :
  existsb (Nat.eqb i) l = true <-> In i l.
Proof.
  rewrite existsb_exists. split.
  - intros (x & Hx & E). apply Nat.eqb_eq in E. subst. exact Hx.
  - intros H. exists i. split; [exact H | apply Nat.eqb_refl].
Qed.

Lemma nodupb_NoDup (l : list nat) : ReplayBuffer.nodupb l = true <-> NoDup l.
Proof.
  induction l as [|i l IH]; simpl.
  - split; [constructor | reflexivity].
  - rewrite andb_true_iff, negb_true_iff, IH. split.
    + intros [Hn Hd]. constructor; [|exact Hd].
      rewrite <- existsb_eqb_In. congruence.
    + intros H. inversion H as [|? ? Hn Hd]; subst. split; [|exact Hd].
      destruct (existsb (Nat.eqb i) l) eqn:E; [|reflexivity].
      apply existsb_eqb_In in E. contradiction.
Qed.

Lemma is_drawb_is_draw (n : nat) (k : Z) (d : list nat) :
  ReplayBuffer.is_drawb n k d = true <-> ReplayBuffer.is_draw n k d.
Proof.
  unfold ReplayBuffer.is_drawb, ReplayBuffer.is_draw.
  rewrite !andb_true_iff, Z.eqb_eq, nodupb_NoDup, forallb_forall, Forall_forall.
  split.
  - intros [[H1 H2] H3]. repeat split; auto.
    intros x Hx. apply Nat.ltb_lt. auto.
  - intros (H1 & H2 & H3). repeat split; auto.
    intros x Hx. apply Nat.ltb_lt. auto.
Qed.

(** What a successful [random_sample] returns. *)
Lemma random_sample_Ok (pop : list Transition) (k : Z) (d : list nat)
      (batch : list Transition) :
  ReplayBuffer.random_sample pop k d = Ok batch ->
  (0 <= k <= Z.of_nat (length pop))%Z
  /\ ReplayBuffer.is_draw (length pop) k d
  /\ Z.of_nat (length batch) = k
  /\ forall i p, nth_error d i = Some p ->
       exists t, nth_error pop p = Some t /\ nth_error batch i = Some t.
Proof.
  unfold ReplayBuffer.random_sample.
  destruct (Z.ltb_spec k 0) as [Hk|Hk]; [discriminate|].
  destruct (Z.ltb_spec (Z.of_nat (length pop)) k) as [Hn|Hn]; [discriminate|].
  destruct (ReplayBuffer.is_drawb (length pop) k d) eqn:Hd; simpl; [|discriminate].
  apply is_drawb_is_draw in Hd.
  intros H. split; [lia|]. split; [exact Hd|]. split.
  - rewrite (mapM_length _ _ _ H). apply Hd.
  - intros i p Hi.
    destruct (mapM_lookup _ _ _ H _ _ Hi) as (t & Ht & Hf).
    exists t. split; [|exact Ht].
    destruct (nth_error pop p); [injection Hf as <-; reflexivity | discriminate].
Qed.


Lemma sample_Ok (rb : ReplayBuffer) (n : Z) (d : list nat) (b : ReplayBuffer.Batch) :
  ReplayBuffer.sample rb n d = Ok b ->
  exists batch,
    ReplayBuffer.random_sample (buffer rb) n d = Ok batch
    /\ batch <> []
    /\ b = ReplayBuffer.mkBatch (map t_state batch) (map t_action batch)
             (map t_reward batch) (map t_next_state batch) (map t_done batch).
Proof.
  unfold ReplayBuffer.sample. intros H.
  apply bind_Ok_inv in H as (batch & Hs & H).
  exists batch. split; [exact Hs|].
  destruct batch as [|t batch]; [discriminate|].
  injection H as <-. split; [discriminate | reflexivity].
Qed.




(** ** Tensor lemmas *)

Lemma nth_error_map2 {A B C : Type} (f : A -> B -> C) (l1 : list A) (l2 : list B)
      (i : nat) :
  nth_error (map2 f l1 l2) i =
  match nth_error l1 i, nth_error l2 i with
  | Some x, Some y => Some (f x y)
  | _, _ => None
  end.
Proof.
  revert l2 i. induction l1 as [|x l1 IH]; intros [|y l2] [|i]; simpl;
    try reflexivity.
  - destruct (nth_error l1 i); reflexivity.
  - apply IH.
Qed.

Lemma map2_length {A B C : Type} (f : A -> B -> C) (l1 : list A) (l2 : list B) :
  length (map2 f l1 l2) = Nat.min (length l1) (length l2).
Proof.
  revert l2. induction l1 as [|x l1 IH]; intros [|y l2]; simpl; auto.
Qed.

Lemma imap_from_length {A B : Type} (f : nat -> A -> B) (i : nat) (l : list A) :
  length (imap_from f i l) = length l.
Proof.
  revert i. induction l as [|x l IH]; intros i; simpl; auto.
Qed.

Lemma target_Q_row (g : Q) (reward done q1 q2 : list Q) (i : nat) (r d x1 x2 : Q) :
  nth_error reward i = Some r ->
  nth_error done i = Some d ->
  nth_error q1 i = Some x1 ->
  nth_error q2 i = Some x2 ->
  nth_error (target_Q g reward done q1 q2) i
  = Some (r + (1 - d) * g * Qmin x1 x2).
Proof.
  intros Hr Hd H1 H2. unfold target_Q.
  rewrite !nth_error_map2, Hr, H1, H2.
  rewrite (map_nth_error (fun d => (1 - d) * g) _ _ Hd).
  reflexivity.
Qed.

Lemma target_Q_length (g : Q) (reward done q1 q2 : list Q) :
  length done = length reward ->
  length q1 = length reward ->
  length q2 = length reward ->
  length (target_Q g reward done q1 q2) = length reward.
Proof.
  intros Hd H1 H2. unfold target_Q.
  rewrite !map2_length, length_map. lia.
Qed.

Lemma nth_error_lt_Some {A : Type} (l : list A) (i : nat) :
  (i < length l)%nat -> exists x, nth_error l i = Some x.
Proof.
  intros H. destruct (nth_error l i) eqn:E; [eauto|].
  apply nth_error_None in E. lia.
Qed.

(** ** The learning step *)

Section TrainFacts.

Variable W : Collaborators.
Variable hp : Hyper.

Lemma smoothed_action_length (target : Params) (acts next_state : list Vec)
      (z : nat -> nat -> Q) (na : list Vec) :
  smoothed_action W hp target acts next_state z = Ok na ->
  length na = Nat.min (length next_state) (length acts).
Proof.
  unfold smoothed_action, normal_like, rows_add. intros H.
  apply bind_Ok_inv in H as (raw & Hraw & H).
  apply bind_Ok_inv in H as (s & Hs & H).
  injection H as <-.
  destruct (Qltb (policy_noise hp) 0); [discriminate|].
  injection Hraw as <-.
  rewrite length_map, (mapM_length _ _ _ Hs), length_combine, !length_map.
  rewrite imap_from_length. reflexivity.
Qed.

(** What a successful [train] has done. *)
Lemma train_Ok_inv (ag ag' : Agent W) (r : TrainRand) :
  train hp ag r = Ok ag' ->
  exists b tq,
    ReplayBuffer.sample (replay_buffer ag) (batch_size hp) (draw r) = Ok b
    /\ train_target hp ag b (smooth r) = Ok tq
    /\ policy_freq hp <> 0%Z
    /\ replay_buffer ag' = replay_buffer ag
    /\ total_it ag' = (total_it ag + 1)%Z
    /\ episodes ag' = episodes ag
    /\ critic ag' =
       snd (critic_optimize W (critic_optimizer ag) (critic ag)
              (ReplayBuffer.states b) (ReplayBuffer.actions b) tq)
    /\ if (total_it ag mod policy_freq hp =? 0)%Z then
         actor ag' =
         snd (actor_optimize W (actor_optimizer ag) (actor ag) (critic ag')
                (ReplayBuffer.states b))
         /\ actor_target ag' = soft_update (tau hp) (actor ag') (actor_target ag)
         /\ critic_target ag' = soft_update (tau hp) (critic ag') (critic_target ag)
         /\ trace ag' = trace ag ++ [CriticStep tq; ActorStep; TargetSync]
       else
         actor ag' = actor ag
         /\ actor_target ag' = actor_target ag
         /\ critic_target ag' = critic_target ag
         /\ actor_optimizer ag' = actor_optimizer ag
         /\ trace ag' = trace ag ++ [CriticStep tq].
Proof.
  unfold train. intros H.
  apply bind_Ok_inv in H as (b & Hb & H).
  apply bind_Ok_inv in H as (tq & Htq & H).
  exists b, tq. split; [exact Hb|]. split; [exact Htq|].
  destruct (critic_optimize W (critic_optimizer ag) (critic ag)
              (ReplayBuffer.states b) (ReplayBuffer.actions b) tq) as [copt c].
  destruct (Z.eqb_spec (policy_freq hp) 0) as [|Hpf]; [discriminate|].
  split; [exact Hpf|].
  destruct (total_it ag mod policy_freq hp =? 0)%Z.
  - destruct (actor_optimize W (actor_optimizer ag) (actor ag) c
                (ReplayBuffer.states b)) as [aopt a] eqn:Ea.
    injection H as <-. simpl. rewrite Ea. simpl.
    rewrite <- app_assoc. repeat split; reflexivity.
  - injection H as <-. simpl. repeat split; reflexivity.
Qed.

(** [train] returns as soon as the batch can be drawn, the noise scale is
    legal, the shapes fit and [policy_freq] is not zero. *)
Lemma train_total (ag : Agent W) (r : TrainRand) (b : ReplayBuffer.Batch)
      (tq : list Q) :
  ReplayBuffer.sample (replay_buffer ag) (batch_size hp) (draw r) = Ok b ->
  train_target hp ag b (smooth r) = Ok tq ->
  policy_freq hp <> 0%Z ->
  exists ag', train hp ag r = Ok ag'.
Proof.
  intros Hb Htq Hpf. unfold train. rewrite Hb. simpl. rewrite Htq. simpl.
  destruct (critic_optimize W _ _ _ _ _) as [copt c].
  destruct (Z.eqb_spec (policy_freq hp) 0) as [|_]; [contradiction|].
  destruct (total_it ag mod policy_freq hp =? 0)%Z.
  - destruct (actor_optimize W _ _ _ _) as [aopt a]. eexists; reflexivity.
  - eexists; reflexivity.
Qed.

(** C1. In every learning step that returns, the label [target_Q] the
    critic is regressed on has one entry per sampled row, and the entry of
    row [i] is [reward + (1 - terminal) * discount * min (Q1, Q2)] with
    [(Q1, Q2)] the target critic's output on that row's next state and
    smoothed next action; it is the reward alone when the row's terminal
    flag is set, and the reward plus the whole discounted minimum when it
    is not. *)
Theorem learning_target_rule (ag ag' : Agent W) (r : TrainRand) :
  train hp ag r = Ok ag' ->
  exists b next_action tq,
    ReplayBuffer.sample (replay_buffer ag) (batch_size hp) (draw r) = Ok b
    /\ smoothed_action W hp (actor_target ag) (ReplayBuffer.actions b)
         (ReplayBuffer.next_states b) (smooth r) = Ok next_action
    /\ In (CriticStep tq) (trace ag')
    /\ length tq = length (ReplayBuffer.rewards b)
    /\ forall i, (i < length (ReplayBuffer.rewards b))%nat ->
       exists reward terminal s' a' y,
         nth_error (ReplayBuffer.rewards b) i = Some reward
         /\ nth_error (ReplayBuffer.dones b) i = Some terminal
         /\ nth_error (ReplayBuffer.next_states b) i = Some s'
         /\ nth_error next_action i = Some a'
         /\ nth_error tq i = Some y
         /\ (let (target_Q1, target_Q2) :=
               critic_forward W (critic_target ag) s' a' in
             y == reward + (1 - Q_of_bool terminal) * discount hp
                           * Qmin target_Q1 target_Q2
             /\ (terminal = true -> y == reward)
             /\ (terminal = false ->
                 y == reward + discount hp * Qmin target_Q1 target_Q2)).
Proof.
  intros H.
  destruct (train_Ok_inv _ _ _ H) as (b & tq & Hb & Htq & _ & _ & _ & _ & _ & Htr).
  destruct (sample_Ok _ _ _ _ Hb) as (batch & _ & _ & Eb). subst b.
  unfold train_target in Htq.
  apply bind_Ok_inv in Htq as (na & Hna & Htq). injection Htq as <-.
  simpl in *.
  pose proof (smoothed_action_length _ _ _ _ _ Hna) as Hlen.
  rewrite !length_map in Hlen. rewrite Nat.min_id in Hlen.
  eexists. exists na. eexists. split; [exact Hb|]. split; [exact Hna|].
  simpl.
  split.
  { destruct (total_it ag mod policy_freq hp =? 0)%Z.
    - destruct Htr as (_ & _ & _ & ->). apply in_or_app. right. left. reflexivity.
    - destruct Htr as (_ & _ & _ & _ & ->). apply in_or_app. right. left. reflexivity. }
  split.
  { apply target_Q_length; rewrite ?length_map, ?map2_length, ?length_map; lia. }
  rewrite length_map. intros i Hi.
  destruct (nth_error_lt_Some batch i Hi) as [t Ht].
  destruct (nth_error_lt_Some na i) as [a' Ha']; [lia|].
  exists (t_reward t), (t_done t), (t_next_state t), a'.
  eexists.
  split; [apply map_nth_error; exact Ht|].
  split; [apply map_nth_error; exact Ht|].
  split; [apply map_nth_error; exact Ht|].
  split; [exact Ha'|].
  split.
  { apply target_Q_row.
    - apply map_nth_error; exact Ht.
    - apply map_nth_error with (f := Q_of_bool). apply map_nth_error; exact Ht.
    - apply map_nth_error with (f := fst). rewrite nth_error_map2.
      rewrite (map_nth_error t_next_state _ _ Ht), Ha'. reflexivity.
    - apply map_nth_error with (f := snd). rewrite nth_error_map2.
      rewrite (map_nth_error t_next_state _ _ Ht), Ha'. reflexivity. }
  destruct (critic_forward W (critic_target ag) (t_next_state t) a') as [q1 q2].
  simpl. split; [reflexivity|].
  split; intros ->; simpl; ring.
Qed.

End TrainFacts.

Lemma toy_fresh_init (h : Hyper) :
  init Toy.W h true false false [[1 # 2]] [[1]] tt tt 0%Z None 0 = Ok (Toy.fresh h).
Proof. reflexivity. Qed.

Lemma learning_target_rule_witness :
  exists ag',
    train Toy.hp (Toy.stocked Toy.hp) Toy.rand = Ok ag'
    /\ exists tq, In (CriticStep tq) (trace ag') /\ length tq = 2%nat.
Proof.
  destruct (train Toy.hp (Toy.stocked Toy.hp) Toy.rand) as [ag'|e] eqn:E;
    [|vm_compute in E; discriminate].
  exists ag'. split; [reflexivity|].
  destruct (learning_target_rule Toy.W Toy.hp _ _ _ E)
    as (b & na & tq & Hb & _ & Hin & Hlen & _).
  exists tq. split; [exact Hin|].
  rewrite Hlen. vm_compute in Hb. injection Hb as <-. reflexivity.
Defined.

(** The scenario of the specification: two rows, discount 0.99, terminal
    flags 0 and 1. *)
Example target_Q_scenario (r0 r1 a0 a1 b0 b1 : Q) :
  Forall2 Qeq
    (target_Q (99 # 100) [r0; r1] (map Q_of_bool [false; true]) [a0; a1] [b0; b1])
    [r0 + (99 # 100) * Qmin a0 b0; r1].
Proof.
  simpl. repeat constructor; ring.
Qed.

(** ** Delayed update cadence *)

Lemma count_app (p : Event -> bool) (l l' : list Event) :
  count p (l ++ l') = (count p l + count p l')%nat.
Proof.
  unfold count. rewrite filter_app, length_app. reflexivity.
Qed.

Lemma ceil_div_succ (n pf : Z) :
  (0 < pf)%Z -> (0 <= n)%Z ->
  ceil_div (n + 1) pf
  = (ceil_div n pf + (if (n mod pf =? 0)%Z then 1 else 0))%Z.
Proof.
  intros Hpf Hn. unfold ceil_div.
  pose proof (Z.div_mod n pf ltac:(lia)) as Hdm.
  pose proof (Z.mod_pos_bound n pf Hpf) as Hr.
  set (q := (n / pf)%Z) in *. set (r := (n mod pf)%Z) in *.
  assert (H1 : ((n + 1 + pf - 1) / pf = q + 1)%Z).
  { symmetry. apply (Z.div_unique _ _ _ r); lia. }
  rewrite H1.
  destruct (Z.eqb_spec r 0) as [E|E].
  - assert (H2 : ((n + pf - 1) / pf = q)%Z).
    { symmetry. apply (Z.div_unique _ _ _ (pf - 1)); lia. }
    lia.
  - assert (H2 : ((n + pf - 1) / pf = q + 1)%Z).
    { symmetry. apply (Z.div_unique _ _ _ (r - 1)); lia. }
    lia.
Qed.

Lemma ceil_div_0 (pf : Z) : (0 < pf)%Z -> ceil_div 0 pf = 0%Z.
Proof.
  intros H. unfold ceil_div. apply Z.div_small. lia.
Qed.

Section Cadence.

Variable W : Collaborators.
Variable hp : Hyper.

(** One learning step: the critic is always updated; the policy and the
    targets exactly when the counter is a multiple of [policy_freq]. *)
Lemma train_cadence_step (ag ag' : Agent W) (r : TrainRand) :
  train hp ag r = Ok ag' ->
  total_it ag' = (total_it ag + 1)%Z
  /\ count is_critic_step (trace ag') = S (count is_critic_step (trace ag))
  /\ if (total_it ag mod policy_freq hp =? 0)%Z then
       count is_actor_step (trace ag') = S (count is_actor_step (trace ag))
       /\ count is_target_sync (trace ag') = S (count is_target_sync (trace ag))
     else
       count is_actor_step (trace ag') = count is_actor_step (trace ag)
       /\ count is_target_sync (trace ag') = count is_target_sync (trace ag)
       /\ actor ag' = actor ag
       /\ actor_target ag' = actor_target ag
       /\ critic_target ag' = critic_target ag.
Proof.
  intros H.
  destruct (train_Ok_inv _ _ _ _ _ H)
    as (b & tq & _ & _ & _ & _ & Hit & _ & _ & Hcase).
  split; [exact Hit|].
  destruct (total_it ag mod policy_freq hp =? 0)%Z.
  - destruct Hcase as (_ & _ & _ & ->).
    rewrite !count_app. cbn. repeat split; lia.
  - destruct Hcase as (Ha & Hat & Hct & _ & ->).
    rewrite !count_app. cbn. repeat split; auto; lia.
Qed.

Lemma train_cadence (ag ag' : Agent W) (r : TrainRand) :
  (0 < policy_freq hp)%Z ->
  cadence hp ag -> train hp ag r = Ok ag' -> cadence hp ag'.
Proof.
  intros Hpf (Hc & Ha & Hs) H.
  destruct (train_cadence_step _ _ _ H) as (Hit & Hc' & Hcase).
  unfold cadence. rewrite Hit, Hc'.
  rewrite ceil_div_succ by lia.
  destruct (total_it ag mod policy_freq hp =? 0)%Z.
  - destruct Hcase as (-> & ->). repeat split; lia.
  - destruct Hcase as (-> & -> & _). repeat split; lia.
Qed.

Lemma learning_steps_cadence (rs : list (list Transition * TrainRand))
      (ag ag' : Agent W) :
  (0 < policy_freq hp)%Z ->
  cadence hp ag -> learning_steps hp ag rs = Ok ag' ->
  cadence hp ag' /\ total_it ag' = (total_it ag + Z.of_nat (length rs))%Z.
Proof.
  intros Hpf. revert ag.
  induction rs as [|[ts r] rs IH]; intros ag Hc H.
  - injection H as <-. split; [exact Hc | simpl; lia].
  - cbn [learning_steps] in H.
    apply bind_Ok_inv in H as (ag1 & H1 & H).
    destruct (train_cadence_step _ _ _ H1) as (Hit & _).
    assert (Hc1 : cadence hp ag1).
    { eapply train_cadence; [exact Hpf| |exact H1]. exact Hc. }
    destruct (IH ag1 Hc1 H) as (Hc' & Hit').
    split; [exact Hc'|]. rewrite Hit', Hit. cbn [length set_replay_buffer total_it]. lia.
Qed.

Lemma init_fresh (is_training endless continue_training : bool)
      (actor0 critic0 : Params) (opt_a opt_c : OptState W) (e : Env W)
      (files : option (Params * Params)) (start_time : Q) (ag : Agent W) :
  init W hp is_training endless continue_training actor0 critic0 opt_a opt_c
       e files start_time = Ok ag ->
  total_it ag = 0%Z
  /\ count is_critic_step (trace ag) = 0%nat
  /\ count is_actor_step (trace ag) = 0%nat
  /\ count is_target_sync (trace ag) = 0%nat
  /\ count is_save (trace ag) = 0%nat
  /\ buffer (replay_buffer ag) = [].
Proof.
  unfold init, load. cbn.
  destruct is_training; [destruct continue_training|]; cbn;
    try destruct files as [[a c]|]; cbn; intros H; try discriminate;
    injection H as <-; cbn; repeat split.
Qed.

(** The same bookkeeping holds along the orchestrator's own loops: apart
  from [train], nothing moves the counter or performs an update. *)
Lemma maybe_train_cadence (ag ag' : Agent W) (lc : Locals) (r : StepRand) :
  (0 < policy_freq hp)%Z ->
  cadence hp ag -> maybe_train hp ag lc r = Ok ag' -> cadence hp ag'.
Proof.
  intros Hpf Hc. unfold maybe_train.
  destruct (_ <? _)%Z; [|intros H; injection H as <-; exact Hc].
  destruct (policy_freq hp =? 0)%Z; [discriminate|].
  destruct (_ =? 0)%Z; [|intros H; injection H as <-; exact Hc].
  apply train_cadence; assumption.
Qed.

Lemma step_cadence (is_training : bool) (ag ag' : Agent W) (lc lc' : Locals)
      (r : StepRand) :
  (0 < policy_freq hp)%Z ->
  cadence hp ag -> step hp is_training ag lc r = Ok (ag', lc') -> cadence hp ag'.
Proof.
  intros Hpf Hc H. unfold step in H.
  apply bind_Ok_inv in H as (action & _ & H).
  destruct (env_step W (env ag) action) as [e [[[ns rw] te] tr]].
  apply bind_Ok_inv in H as (ag1 & H1 & H).
  injection H as <- _.
  destruct is_training.
  - eapply maybe_train_cadence; [exact Hpf| |exact H1]. exact Hc.
  - injection H1 as <-. exact Hc.
Qed.

Lemma steps_cadence (fuel : nat) (is_training : bool) (rnd : nat -> StepRand)
      (i : nat) (ag ag' : Agent W) (lc lc' : Locals) :
  (0 < policy_freq hp)%Z ->
  cadence hp ag ->
  steps hp fuel is_training rnd i ag lc = Finished (ag', lc') -> cadence hp ag'.
Proof.
  intros Hpf. revert i ag lc.
  induction fuel as [|fuel IH]; intros i ag lc Hc; simpl.
  - destruct (loop_cond hp lc); [discriminate|].
    intros H. injection H as <- _. exact Hc.
  - destruct (loop_cond hp lc).
    + destruct (step hp is_training ag lc (rnd i)) as [[ag1 lc1]|e] eqn:E;
        [|discriminate].
      apply IH. exact (step_cadence _ _ _ _ _ _ Hpf Hc E).
    + intros H. injection H as <- _. exact Hc.
Qed.

Lemma episode_end_cadence (is_training : bool) (episode : Z) (x now : Q)
      (ag ag' : Agent W) (tk tk' : Trackers) :
  cadence hp ag ->
  episode_end is_training episode x now ag tk = Ok (ag', tk') -> cadence hp ag'.
Proof.
  unfold cadence, episode_end, average_block, best_block.
  intros Hc.
  destruct is_training;
    [destruct (Qltb 10 _); destruct (_ =? 0)%Z;
     [destruct (gt_best _ (best_average_reward tk))| |
      destruct (gt_best _ (best_average_reward tk))|];
     cbn; destruct (_ && _); cbn;
     intros H; try apply bind_Ok_inv in H as (pct & _ & H)|
     intros H];
    injection H as <- _;
    cbn [trace total_it emit save]; rewrite ?count_app; cbn;
    rewrite ?Nat.add_0_r; exact Hc.
Qed.

Lemma episode_body_cadence (fuel : nat) (is_training : bool) (episode : Z)
      (er : EpisodeRand) (ag ag' : Agent W) (tk tk' : Trackers) :
  (0 < policy_freq hp)%Z ->
  cadence hp ag ->
  episode_body hp fuel is_training episode er ag tk = Finished (ag', tk') ->
  cadence hp ag'.
Proof.
  intros Hpf Hc. unfold episode_body.
  destruct (env_reset W (env ag)) as [e s0].
  destruct (if is_training then Ok (set_env ag e) else load (set_env ag e))
    as [ag1|x] eqn:El; [|discriminate].
  assert (Hc1 : cadence hp ag1).
  { destruct is_training; [injection El as <-; exact Hc|].
    unfold load in El. destruct (disk _) as [[a c]|]; [|discriminate].
    injection El as <-. exact Hc. }
  destruct (steps hp fuel is_training (step_rand er) 0 ag1 _)
    as [[ag2 lc]|x|] eqn:Es; try discriminate.
  apply (steps_cadence _ _ _ _ _ _ _ _ Hpf Hc1) in Es.
  destruct (episode_end _ _ _ _ _ _) as [[ag3 tk3]|x] eqn:Ee; [|discriminate].
  intros H. injection H as <- _.
  exact (episode_end_cadence _ _ _ _ _ _ _ _ Es Ee).
Qed.

Lemma run_from_cadence (efuel fuel : nat) (is_training : bool) (episode : Z)
      (rnd : nat -> EpisodeRand) (ag ag' : Agent W) (tk tk' : Trackers) :
  (0 < policy_freq hp)%Z ->
  cadence hp ag ->
  run_from hp efuel fuel is_training episode rnd ag tk = Finished (ag', tk') ->
  cadence hp ag'.
Proof.
  intros Hpf. revert episode ag tk.
  induction efuel as [|efuel IH]; intros episode ag tk Hc; simpl.
  - destruct (has_next _ _); [discriminate|].
    intros H. injection H as <- _. exact Hc.
  - destruct (has_next _ _).
    + destruct (episode_body hp fuel is_training episode _ ag tk)
        as [[ag1 tk1]|x|] eqn:E; try discriminate.
      apply IH. exact (episode_body_cadence _ _ _ _ _ _ _ _ Hpf Hc E).
    + intros H. injection H as <- _. exact Hc.
Qed.

(** C2 (amended). From a fresh agent, after [N] learning steps (with any
    transitions stored in between) and [policy_freq > 0]: the critic was
    updated [N] times, and the policy and the target networks
    [ceil (N / policy_freq)] times each; the same count holds after any
    finished run of the orchestrator, [N] being the value of the global step
    counter.  In each single step the critic is updated; the policy is
    updated and the targets are synchronised exactly when the counter before
    the step is a multiple of [policy_freq], and otherwise the policy, its
    target and the critic's target are left as they were; the counter goes
    up by one. *)
Theorem delayed_update_cadence
        (is_training endless continue_training : bool)
        (actor0 critic0 : Params) (opt_a opt_c : OptState W) (e : Env W)
        (files : option (Params * Params)) (start_time : Q)
        (rs : list (list Transition * TrainRand)) (ag0 agN : Agent W) :
  (0 < policy_freq hp)%Z ->
  init W hp is_training endless continue_training actor0 critic0 opt_a opt_c
       e files start_time = Ok ag0 ->
  learning_steps hp ag0 rs = Ok agN ->
  let N := Z.of_nat (length rs) in
  total_it agN = N
  /\ Z.of_nat (count is_critic_step (trace agN)) = N
  /\ Z.of_nat (count is_actor_step (trace agN)) = ((N + policy_freq hp - 1) / policy_freq hp)%Z
  /\ Z.of_nat (count is_target_sync (trace agN)) = ((N + policy_freq hp - 1) / policy_freq hp)%Z
  /\ (forall (efuel fuel : nat) (training : bool) (rnd : nat -> EpisodeRand)
             (ag' : Agent W) (tk' : Trackers),
         run hp efuel fuel training rnd ag0 = Finished (ag', tk') ->
         Z.of_nat (count is_critic_step (trace ag')) = total_it ag'
         /\ Z.of_nat (count is_actor_step (trace ag'))
            = ((total_it ag' + policy_freq hp - 1) / policy_freq hp)%Z
         /\ Z.of_nat (count is_target_sync (trace ag'))
            = ((total_it ag' + policy_freq hp - 1) / policy_freq hp)%Z)
  /\ forall (ag ag' : Agent W) (r : TrainRand),
       train hp ag r = Ok ag' ->
       total_it ag' = (total_it ag + 1)%Z
       /\ count is_critic_step (trace ag') = S (count is_critic_step (trace ag))
       /\ if (total_it ag mod policy_freq hp =? 0)%Z then
            count is_actor_step (trace ag') = S (count is_actor_step (trace ag))
            /\ count is_target_sync (trace ag') = S (count is_target_sync (trace ag))
          else
            count is_actor_step (trace ag') = count is_actor_step (trace ag)
            /\ count is_target_sync (trace ag') = count is_target_sync (trace ag)
            /\ actor ag' = actor ag
            /\ actor_target ag' = actor_target ag
            /\ critic_target ag' = critic_target ag.
Proof.
  intros Hpf Hinit Hrun N.
  destruct (init_fresh _ _ _ _ _ _ _ _ _ _ _ Hinit) as (H0 & Hc0 & Ha0 & Hs0 & _).
  assert (Hcad : cadence hp ag0).
  { unfold cadence. rewrite H0, Hc0, Ha0, Hs0, ceil_div_0 by exact Hpf.
    repeat split. }
  destruct (learning_steps_cadence rs ag0 agN Hpf Hcad Hrun) as ((Hc & Ha & Hs) & Hit).
  rewrite H0 in Hit. simpl in Hit. fold N in Hit.
  rewrite Hit in Hc, Ha, Hs. unfold ceil_div in Ha, Hs.
  split; [exact Hit|]. split; [exact Hc|]. split; [exact Ha|]. split; [exact Hs|].
  split.
  - intros efuel fuel training rnd ag' tk' Hr.
    exact (run_from_cadence _ _ _ _ _ _ _ _ _ Hpf Hcad Hr).
  - intros ag ag' r. apply train_cadence_step.
Qed.

End Cadence.

(** C2 (as stated) fails: with [policy_freq = 2], one learning step from a
    fresh agent updates the policy once, not [floor (1 / 2) = 0] times. *)
Lemma cadence_floor_fails :
  exists ag',
    learning_steps Toy.hp (Toy.fresh Toy.hp) [([Toy.t1; Toy.t2; Toy.t3], Toy.rand)]
    = Ok ag'
    /\ count is_actor_step (trace ag') = 1%nat
    /\ (Z.of_nat 1 / policy_freq Toy.hp)%Z = 0%Z.
Proof.
  eexists. split; [vm_compute; reflexivity|]. split; reflexivity.
Qed.

Lemma delayed_update_cadence_witness :
  exists agN,
    learning_steps Toy.hp (Toy.fresh Toy.hp)
      [([Toy.t1; Toy.t2; Toy.t3], Toy.rand); ([], Toy.rand); ([Toy.t1], Toy.rand)]
    = Ok agN
    /\ Z.of_nat (count is_actor_step (trace agN)) = 2%Z.
Proof.
  destruct (learning_steps Toy.hp (Toy.fresh Toy.hp)
      [([Toy.t1; Toy.t2; Toy.t3], Toy.rand); ([], Toy.rand); ([Toy.t1], Toy.rand)])
    as [agN|e] eqn:E; [|vm_compute in E; discriminate].
  exists agN. split; [reflexivity|].
  destruct (delayed_update_cadence Toy.W Toy.hp true false false
              [[1 # 2]] [[1]] tt tt 0%Z None 0 _ (Toy.fresh Toy.hp) agN
              ltac:(reflexivity) (toy_fresh_init Toy.hp) E)
    as (_ & _ & Ha & _).
  exact Ha.
Defined.

(** ** Soft target synchronisation *)

Lemma polyak_length (tau : Q) (p t : Tensor) :
  length (polyak tau p t) = length t.
Proof.
  revert t. induction p as [|x p IH]; intros [|y t]; simpl; auto.
Qed.

Lemma polyak_nth (tau : Q) (p t : Tensor) (j : nat) (b : Q) :
  length p = length t -> nth_error t j = Some b ->
  exists a, nth_error p j = Some a
            /\ nth_error (polyak tau p t) j = Some (tau * a + (1 - tau) * b).
Proof.
  revert t j. induction p as [|x p IH]; intros [|y t] j Hl Hj; simpl in *;
    try discriminate.
  - destruct j; discriminate.
  - destruct j as [|j]; simpl in *.
    + injection Hj as <-. exists x. auto.
    + apply IH; [lia | exact Hj].
Qed.

Lemma soft_update_blended (tau : Q) (live old : Params) :
  same_shape live old -> blended tau live old (soft_update tau live old).
Proof.
  unfold same_shape, blended. induction 1 as [|p t live old Hpt Hrest IH].
  - split; [reflexivity|]. intros [|i]; discriminate.
  - destruct IH as [IHl IHn]. split; [simpl; congruence|].
    intros [|i] t0 j b Hi Hj; simpl in *.
    + injection Hi as <-.
      destruct (polyak_nth tau p t j b Hpt Hj) as (a & Ha & Hn).
      exists p, a, (polyak tau p t).
      repeat split; auto. apply polyak_length.
    + apply (IHn i t0 j b Hi Hj).
Qed.

Lemma blend_closer (tau a x : Q) :
  0 < tau -> tau < 1 -> ~ x == a ->
  ~ tau * a + (1 - tau) * x == a
  /\ Qabs (tau * a + (1 - tau) * x - a) < Qabs (x - a)
  /\ (a < x -> a < tau * a + (1 - tau) * x /\ tau * a + (1 - tau) * x < x)
  /\ (x < a -> x < tau * a + (1 - tau) * x /\ tau * a + (1 - tau) * x < a).
Proof.
  intros H0 H1 Hne.
  destruct (Q_dec x a) as [[Hlt|Hgt]|Heq]; [| |contradiction].
  - assert (P1 : 0 < tau * (a - x)) by (apply Qmult_lt_0_compat; lra).
    assert (P2 : 0 < (1 - tau) * (a - x)) by (apply Qmult_lt_0_compat; lra).
    assert (B : x < tau * a + (1 - tau) * x /\ tau * a + (1 - tau) * x < a)
      by (split; lra).
    split; [lra|]. split.
    + rewrite (Qabs_neg (tau * a + (1 - tau) * x - a)) by lra.
      rewrite (Qabs_neg (x - a)) by lra. lra.
    + split; [lra | intros _; exact B].
  - assert (P1 : 0 < tau * (x - a)) by (apply Qmult_lt_0_compat; lra).
    assert (P2 : 0 < (1 - tau) * (x - a)) by (apply Qmult_lt_0_compat; lra).
    assert (B : a < tau * a + (1 - tau) * x /\ tau * a + (1 - tau) * x < x)
      by (split; lra).
    split; [lra|]. split.
    + rewrite (Qabs_pos (tau * a + (1 - tau) * x - a)) by lra.
      rewrite (Qabs_pos (x - a)) by lra. lra.
    + split; [intros _; exact B | lra].
Qed.

Section TargetSync.

Variable W : Collaborators.
Variable hp : Hyper.

(** C5. When a learning step synchronises the targets (the counter is a
    multiple of [policy_freq]) and the live and target networks have the
    same structure, every entry [b] of every parameter tensor of both
    target networks becomes [tau * a + (1 - tau) * b], [a] being the
    matching entry of the live network after its update.  Consequently, for
    [0 < tau < 1] and a live value [a] different from the target value
    [b], each further soft update against the same live value brings the
    target strictly closer to [a], from the same side and without reaching
    it. *)
Theorem soft_target_sync (ag ag' : Agent W) (r : TrainRand) :
  train hp ag r = Ok ag' ->
  (total_it ag mod policy_freq hp = 0)%Z ->
  same_shape (actor ag') (actor_target ag) ->
  same_shape (critic ag') (critic_target ag) ->
  blended (tau hp) (actor ag') (actor_target ag) (actor_target ag')
  /\ blended (tau hp) (critic ag') (critic_target ag) (critic_target ag')
  /\ forall a b : Q,
       0 < tau hp -> tau hp < 1 -> ~ b == a ->
       forall n : nat,
       exists x x',
         Nat.iter n (soft_update (tau hp) [[a]]) [[b]] = [[x]]
         /\ Nat.iter (S n) (soft_update (tau hp) [[a]]) [[b]] = [[x']]
         /\ x' = tau hp * a + (1 - tau hp) * x
         /\ ~ x' == a
         /\ Qabs (x' - a) < Qabs (x - a)
         /\ (a < b -> a < x' /\ x' < x)
         /\ (b < a -> x < x' /\ x' < a).
Proof.
  intros H Hmod Ha Hc.
  destruct (train_Ok_inv _ _ _ _ _ H)
    as (b & tq & _ & _ & _ & _ & _ & _ & _ & Hcase).
  rewrite Hmod in Hcase. cbn in Hcase.
  destruct Hcase as (_ & Hat & Hct & _).
  split; [rewrite Hat; apply soft_update_blended; exact Ha|].
  split; [rewrite Hct; apply soft_update_blended; exact Hc|].
  intros a b0 H0 H1 Hne n.
  assert (Hn : exists x, Nat.iter n (soft_update (tau hp) [[a]]) [[b0]] = [[x]]
                         /\ ~ x == a /\ (a < b0 -> a < x) /\ (b0 < a -> x < a)).
  { induction n as [|n (x & Hx & Hxa & Hgt & Hlt)].
    - exists b0. simpl. repeat split; auto.
    - exists (tau hp * a + (1 - tau hp) * x). rewrite Nat.iter_succ, Hx. simpl.
      destruct (blend_closer (tau hp) a x H0 H1 Hxa) as (N1 & _ & G & L).
      repeat split; auto.
      + intros Hab. apply G. auto.
      + intros Hab. apply L. auto. }
  destruct Hn as (x & Hx & Hxa & Hgt & Hlt).
  exists x, (tau hp * a + (1 - tau hp) * x).
  destruct (blend_closer (tau hp) a x H0 H1 Hxa) as (N1 & D & G & L).
  split; [exact Hx|]. split; [rewrite Nat.iter_succ, Hx; reflexivity|].
  split; [reflexivity|]. split; [exact N1|]. split; [exact D|].
  split; intros Hab; [apply G | apply L]; auto.
Qed.

End TargetSync.

Lemma soft_target_sync_witness :
  exists ag',
    train Toy.hp (Toy.stocked Toy.hp) Toy.rand = Ok ag'
    /\ blended (tau Toy.hp) (actor ag') (actor_target (Toy.stocked Toy.hp))
         (actor_target ag').
Proof.
  destruct (train Toy.hp (Toy.stocked Toy.hp) Toy.rand) as [ag'|e] eqn:E;
    [|vm_compute in E; discriminate].
  exists ag'. split; [reflexivity|].
  assert (Ea : actor ag' = [[(1 # 2) + (1 # 10)]] /\ critic ag' = [[1 + (1 # 10)]]).
  { vm_compute in E. injection E as <-. split; reflexivity. }
  destruct Ea as [Ea Ec].
  apply (soft_target_sync Toy.W Toy.hp (Toy.stocked Toy.hp) ag' Toy.rand E).
  - reflexivity.
  - rewrite Ea. repeat constructor.
  - rewrite Ec. repeat constructor.
Defined.

(** The soft update on one value, run on the toy numbers: live [1], target
    [0], [tau = 1/2]. *)
Example soft_update_halves :
  Nat.iter 3 (soft_update (1 # 2) [[1]]) [[0]]
  = [[(1 # 2) * 1 + (1 - (1 # 2)) * ((1 # 2) * 1 + (1 - (1 # 2)) * ((1 # 2) * 1 + (1 - (1 # 2)) * 0))]].
Proof. reflexivity. Qed.

(** ** Action bounds *)




Section ActionBounds.

Variable W : Collaborators.
Variable hp : Hyper.


End ActionBounds.



(** ** The guard of the learning step *)

Lemma bind_Raise_inv {A B : Type} (r : result A) (k : A -> result B) (e : exn) :
  bind r k = Raise e -> r = Raise e \/ exists a, r = Ok a /\ k a = Raise e.
Proof.
  destruct r as [a|e']; simpl; intros H.
  - right. exists a. auto.
  - left. congruence.
Qed.

Lemma mapM_Raise {A B : Type} (f : A -> result B) (l : list A) (e : exn) :
  mapM f l = Raise e -> exists x, In x l /\ f x = Raise e.
Proof.
  induction l as [|x l IH]; simpl; intros H; [discriminate|].
  apply bind_Raise_inv in H as [H|(y & _ & H)].
  - exists x. auto.
  - apply bind_Raise_inv in H as [H|(ys & _ & H)]; [|discriminate].
    destruct (IH H) as (x' & Hin & Hx'). exists x'. auto.
Qed.

(** [random.sample] fails for lack of data only when it lacks data. *)
Lemma random_sample_larger (pop : list Transition) (k : Z) (d : list nat) :
  ReplayBuffer.random_sample pop k d = Raise SampleLarger ->
  (Z.of_nat (length pop) < k)%Z.
Proof.
  unfold ReplayBuffer.random_sample.
  destruct (Z.ltb_spec k 0); [discriminate|].
  destruct (Z.ltb_spec (Z.of_nat (length pop)) k) as [Hn|Hn]; [auto|].
  destruct (negb _); [discriminate|].
  intros Hm. apply mapM_Raise in Hm as (p & _ & Hm).
  destruct (nth_error pop p); discriminate.
Qed.

Lemma sample_larger (rb : ReplayBuffer) (k : Z) (d : list nat) :
  ReplayBuffer.sample rb k d = Raise SampleLarger ->
  (Z.of_nat (ReplayBuffer.size rb) < k)%Z.
Proof.
  unfold ReplayBuffer.sample. intros H.
  apply bind_Raise_inv in H as [H|(batch & _ & H)].
  - apply random_sample_larger in H. exact H.
  - destruct batch; discriminate.
Qed.

Lemma bc_add_not_larger (a b : Vec) : bc_add a b <> Raise SampleLarger.
Proof.
  unfold bc_add. destruct (Nat.eqb _ _); [discriminate|].
  destruct a as [|x [|x' a]]; destruct b as [|y [|y' b]]; discriminate.
Qed.

Section Guard.

Variable W : Collaborators.
Variable hp : Hyper.

Lemma train_target_not_larger (ag : Agent W) (b : ReplayBuffer.Batch)
      (z : nat -> nat -> Q) :
  train_target hp ag b z <> Raise SampleLarger.
Proof.
  unfold train_target, smoothed_action, normal_like, rows_add. intros H.
  apply bind_Raise_inv in H as [H|(na & _ & H)]; [|discriminate].
  apply bind_Raise_inv in H as [H|(raw & _ & H)].
  - destruct (Qltb _ _); discriminate.
  - apply bind_Raise_inv in H as [H|(s & _ & H)]; [|discriminate].
    apply mapM_Raise in H as (ab & _ & H).
    exact (bc_add_not_larger _ _ H).
Qed.

(** [train] fails for lack of data only when the store holds fewer than
    [batch_size] transitions. *)
Lemma train_larger (ag : Agent W) (r : TrainRand) :
  train hp ag r = Raise SampleLarger ->
  (Z.of_nat (ReplayBuffer.size (replay_buffer ag)) < batch_size hp)%Z.
Proof.
  unfold train. intros H.
  apply bind_Raise_inv in H as [H|(b & _ & H)].
  - apply sample_larger in H. exact H.
  - apply bind_Raise_inv in H as [H|(tq & _ & H)].
    + exfalso. exact (train_target_not_larger _ _ _ H).
    + destruct (critic_optimize W _ _ _ _ _) as [copt c].
      destruct (policy_freq hp =? 0)%Z; [discriminate|].
      destruct (total_it ag mod policy_freq hp =? 0)%Z;
        [destruct (actor_optimize W _ _ _ _)|]; discriminate.
Qed.

(** The three ways the guarded call can go. *)
Lemma maybe_train_cases (ag : Agent W) (lc : Locals) (r : StepRand) :
  ((batch_size hp < Z.of_nat (ReplayBuffer.size (replay_buffer ag)))%Z
   /\ policy_freq hp <> 0%Z
   /\ (step_count lc mod policy_freq hp = 0)%Z
   /\ maybe_train hp ag lc r = train hp ag (learn r))
  \/ (((Z.of_nat (ReplayBuffer.size (replay_buffer ag)) <= batch_size hp)%Z
       \/ policy_freq hp <> 0%Z /\ (step_count lc mod policy_freq hp <> 0)%Z)
      /\ maybe_train hp ag lc r = Ok ag)
  \/ ((batch_size hp < Z.of_nat (ReplayBuffer.size (replay_buffer ag)))%Z
      /\ policy_freq hp = 0%Z
      /\ maybe_train hp ag lc r = Raise ZeroDivisionError).
Proof.
  unfold maybe_train.
  destruct (Z.ltb_spec (batch_size hp)
              (Z.of_nat (ReplayBuffer.size (replay_buffer ag)))) as [Hs|Hs].
  - destruct (Z.eqb_spec (policy_freq hp) 0) as [Hpf|Hpf].
    + right. right. auto.
    + destruct (Z.eqb_spec (step_count lc mod policy_freq hp) 0) as [Hm|Hm].
      * left. auto.
      * right. left. auto.
  - right. left. auto.
Qed.

Lemma maybe_train_not_larger (ag : Agent W) (lc : Locals) (r : StepRand) :
  maybe_train hp ag lc r <> Raise SampleLarger.
Proof.
  destruct (maybe_train_cases ag lc r)
    as [(Hs & _ & _ & ->)|[(_ & ->)|(_ & _ & ->)]]; try discriminate.
  intros H. apply train_larger in H. lia.
Qed.

Lemma step_not_larger (is_training : bool) (ag : Agent W) (lc : Locals)
      (r : StepRand) :
  step hp is_training ag lc r <> Raise SampleLarger.
Proof.
  unfold step. intros H.
  apply bind_Raise_inv in H as [H|(action & _ & H)].
  - unfold run_action, explore_action, np_random_normal in H.
    destruct is_training; [|discriminate].
    apply bind_Raise_inv in H as [H|(noise & _ & H)].
    + destruct (Qltb _ _); discriminate.
    + apply bind_Raise_inv in H as [H|(s & _ & H)]; [|discriminate].
      exact (bc_add_not_larger _ _ H).
  - destruct (env_step W (env ag) action) as [e [[[ns rw] te] tr]].
    apply bind_Raise_inv in H as [H|(ag1 & _ & H)]; [|discriminate].
    destruct is_training; [|discriminate].
    exact (maybe_train_not_larger _ _ _ H).
Qed.

Lemma steps_not_larger (fuel : nat) (is_training : bool) (rnd : nat -> StepRand)
      (i : nat) (ag : Agent W) (lc : Locals) :
  steps hp fuel is_training rnd i ag lc <> Threw SampleLarger.
Proof.
  revert i ag lc. induction fuel as [|fuel IH]; intros i ag lc; simpl.
  - destruct (loop_cond hp lc); discriminate.
  - destruct (loop_cond hp lc); [|discriminate].
    destruct (step hp is_training ag lc (rnd i)) as [[ag' lc']|e] eqn:E.
    + apply IH.
    + intros H. injection H as ->. exact (step_not_larger _ _ _ _ E).
Qed.

Lemma percent_change_raise (x b : Q) (e : exn) :
  percent_change x b = Raise e -> e = ZeroDivisionError.
Proof.
  unfold percent_change. destruct (Qeq_bool b 0); congruence.
Qed.

Lemma episode_end_raise (is_training : bool) (episode : Z) (x now : Q)
      (ag : Agent W) (tk : Trackers) (e : exn) :
  episode_end is_training episode x now ag tk = Raise e ->
  e = ZeroDivisionError.
Proof.
  unfold episode_end. destruct is_training; [|discriminate].
  destruct (average_block _ _ _) as [ag1 tk1].
  unfold best_block. destruct (_ && _); [|discriminate].
  cbn. intros H. apply bind_Raise_inv in H as [H|(p & _ & H)]; [|discriminate].
  exact (percent_change_raise _ _ _ H).
Qed.

Lemma episode_body_not_larger (fuel : nat) (is_training : bool) (episode : Z)
      (er : EpisodeRand) (ag : Agent W) (tk : Trackers) :
  episode_body hp fuel is_training episode er ag tk <> Threw SampleLarger.
Proof.
  unfold episode_body.
  destruct (env_reset W (env ag)) as [e s0].
  destruct (if is_training then Ok (set_env ag e) else load (set_env ag e))
    as [ag1|x] eqn:El.
  - destruct (steps hp fuel is_training (step_rand er) 0 ag1 _)
      as [[ag2 lc]|x|] eqn:Es.
    + destruct (episode_end _ _ _ _ _ _) as [res|x] eqn:Ee; [discriminate|].
      apply episode_end_raise in Ee. subst x. discriminate.
    + intros H. injection H as ->. exact (steps_not_larger _ _ _ _ _ _ Es).
    + discriminate.
  - destruct is_training; [discriminate|].
    unfold load in El. destruct (disk _) as [[a c]|]; [discriminate|].
    injection El as <-. discriminate.
Qed.

Lemma run_from_not_larger (efuel fuel : nat) (is_training : bool) (episode : Z)
      (rnd : nat -> EpisodeRand) (ag : Agent W) (tk : Trackers) :
  run_from hp efuel fuel is_training episode rnd ag tk <> Threw SampleLarger.
Proof.
  revert episode ag tk. induction efuel as [|efuel IH]; intros episode ag tk; simpl.
  - destruct (has_next _ _); discriminate.
  - destruct (has_next _ _); [|discriminate].
    destruct (episode_body hp fuel is_training episode _ ag tk)
      as [[ag' tk']|x|] eqn:E.
    + apply IH.
    + intros H. injection H as ->. exact (episode_body_not_larger _ _ _ _ _ _ E).
    + discriminate.
Qed.

(** C6. The episode loop calls the learning step exactly when
    [buffer.size() > batch_size] and [step_count % policy_freq == 0] (a zero
    [policy_freq] raises before the call; otherwise there is no call and
    the agent is left as it is).  At such a call the store holds at least
    [batch_size] transitions, so neither the sampling nor the learning step
    fails for lack of data, and no step, episode or run of the orchestrator
    ever fails that way. *)
Theorem learning_step_guard :
  (forall (ag : Agent W) (lc : Locals) (r : StepRand),
      ((batch_size hp < Z.of_nat (ReplayBuffer.size (replay_buffer ag)))%Z
       /\ policy_freq hp <> 0%Z
       /\ (step_count lc mod policy_freq hp = 0)%Z
       /\ maybe_train hp ag lc r = train hp ag (learn r)
       /\ (batch_size hp <= Z.of_nat (ReplayBuffer.size (replay_buffer ag)))%Z
       /\ ReplayBuffer.sample (replay_buffer ag) (batch_size hp) (draw (learn r))
          <> Raise SampleLarger
       /\ train hp ag (learn r) <> Raise SampleLarger)
      \/ (((Z.of_nat (ReplayBuffer.size (replay_buffer ag)) <= batch_size hp)%Z
           \/ policy_freq hp <> 0%Z /\ (step_count lc mod policy_freq hp <> 0)%Z)
          /\ maybe_train hp ag lc r = Ok ag)
      \/ ((batch_size hp < Z.of_nat (ReplayBuffer.size (replay_buffer ag)))%Z
          /\ policy_freq hp = 0%Z
          /\ maybe_train hp ag lc r = Raise ZeroDivisionError))
  /\ (forall (is_training : bool) (ag : Agent W) (lc : Locals) (r : StepRand),
         step hp is_training ag lc r <> Raise SampleLarger)
  /\ (forall (fuel : nat) (is_training : bool) (rnd : nat -> StepRand) (i : nat)
             (ag : Agent W) (lc : Locals),
         steps hp fuel is_training rnd i ag lc <> Threw SampleLarger)
  /\ (forall (efuel fuel : nat) (is_training : bool) (rnd : nat -> EpisodeRand)
             (ag : Agent W),
         run hp efuel fuel is_training rnd ag <> Threw SampleLarger).
Proof.
  split; [|split; [|split]].
  - intros ag lc r.
    destruct (maybe_train_cases ag lc r)
      as [(Hs & Hpf & Hm & E)|[H|H]]; [left | right; left; exact H | right; right; exact H].
    repeat (split; [assumption|]).
    split; [lia|]. split.
    + intros H. apply sample_larger in H. lia.
    + intros H. apply train_larger in H. lia.
  - apply step_not_larger.
  - apply steps_not_larger.
  - intros. apply run_from_not_larger.
Qed.

End Guard.

(** ** The step loop of an episode *)

Section EpisodeLoop.

Variable W : Collaborators.
Variable hp : Hyper.

(** What a successful pass through the loop body has done. *)
Lemma step_Ok_inv (is_training : bool) (ag ag' : Agent W) (lc lc' : Locals)
      (r : StepRand) :
  step hp is_training ag lc r = Ok (ag', lc') ->
  exists action e next_state reward term_env trunc,
    run_action hp is_training ag lc r = Ok action
    /\ env_step W (env ag) action = (e, (next_state, reward, term_env, trunc))
    /\ lc' = mkLocals next_state
                      ((step_count lc =? max_timestep hp - 1)%Z || term_env)
                      trunc (episode_reward lc + reward) (step_count lc + 1)%Z
    /\ if is_training then
         maybe_train hp
           (set_replay_buffer (set_env ag e)
              (ReplayBuffer.add (replay_buffer ag)
                 (mkTransition (state lc) action reward next_state
                    ((step_count lc =? max_timestep hp - 1)%Z || term_env))))
           lc r = Ok ag'
       else ag' = set_env ag e.
Proof.
  unfold step. intros H.
  apply bind_Ok_inv in H as (action & Ha & H).
  destruct (env_step W (env ag) action) as [e [[[ns rw] te] tr]] eqn:Ee.
  apply bind_Ok_inv in H as (ag1 & H1 & H).
  injection H as <- <-.
  exists action, e, ns, rw, te, tr.
  split; [exact Ha|]. split; [exact Ee|]. split; [reflexivity|].
  destruct is_training; [exact H1 | congruence].
Qed.

Lemma maybe_train_buffer (ag ag' : Agent W) (lc : Locals) (r : StepRand) :
  maybe_train hp ag lc r = Ok ag' -> replay_buffer ag' = replay_buffer ag.
Proof.
  destruct (maybe_train_cases W hp ag lc r)
    as [(_ & _ & _ & ->)|[(_ & ->)|(_ & _ & ->)]]; intros H.
  - destruct (train_Ok_inv _ _ _ _ _ H) as (_ & _ & _ & _ & _ & Hb & _).
    exact Hb.
  - injection H as <-. reflexivity.
  - discriminate.
Qed.





End EpisodeLoop.


(** ** Best-reward bookkeeping *)

Lemma percent_change_self (x : Q) :
  ~ x == 0 -> exists pct, percent_change x x = Ok pct /\ pct == 0.
Proof.
  intros Hx. unfold percent_change.
  destruct (Qeq_bool x 0) eqn:E.
  - apply Qeq_bool_iff in E. contradiction.
  - eexists. split; [reflexivity|].
    assert (H0 : (x - x) / x == 0) by (unfold Qdiv; ring).
    rewrite H0. reflexivity.
Qed.

Section BestReward.

Variable W : Collaborators.

(** C9. In the new-best-reward branch ([episode_reward > best_reward] and
    [episode > 0]) the tracker is overwritten first and the percentage of
    the message is computed from the overwritten tracker: for a non-zero
    episode reward the numerator [episode_reward - best_reward] is 0 and
    the percentage in the message is 0, whatever the previous best was. *)
Theorem best_reward_percentage (episode : Z) (x : Q) (ag : Agent W)
        (tk : Trackers) :
  gt_best x (best_reward tk) = true ->
  (0 < episode)%Z ->
  ~ x == 0 ->
  exists b pct,
    best_block episode x ag tk
    = Ok (emit ag [Print (NewBestReward x pct episode)],
          mkTrackers (Fin b) (best_average_reward tk))
    /\ b = x
    /\ percent_change x b = Ok pct
    /\ x - b == 0
    /\ pct == 0.
Proof.
  intros Hgt Hep Hx.
  destruct (percent_change_self x Hx) as (pct & Hp & H0).
  exists x, pct. unfold best_block. rewrite Hgt.
  destruct (Z.ltb_spec 0 episode) as [_|]; [|lia].
  cbn. rewrite Hp. cbn.
  split; [reflexivity|]. split; [reflexivity|]. split; [reflexivity|].
  split; [ring | exact H0].
Qed.

End BestReward.

Lemma best_reward_percentage_witness :
  exists pct,
    best_block 7 5 (Toy.fresh Toy.hp) (mkTrackers (Fin 2) NegInf)
    = Ok (emit (Toy.fresh Toy.hp) [Print (NewBestReward 5 pct 7)],
          mkTrackers (Fin 5) NegInf)
    /\ pct == 0.
Proof.
  destruct (best_reward_percentage Toy.W 7 5 (Toy.fresh Toy.hp)
              (mkTrackers (Fin 2) NegInf))
    as (b & pct & Hb & -> & _ & _ & H0).
  - reflexivity.
  - reflexivity.
  - vm_compute. discriminate.
  - exists pct. split; [exact Hb | exact H0].
Defined.

(** ** Checkpoints *)

Section Checkpoints.

Variable W : Collaborators.
Variable hp : Hyper.

Lemma train_books (ag ag' : Agent W) (r : TrainRand) :
  train hp ag r = Ok ag' -> same_books ag ag'.
Proof.
  unfold train, same_books. intros H.
  apply bind_Ok_inv in H as (b & _ & H).
  apply bind_Ok_inv in H as (tq & _ & H).
  destruct (critic_optimize W _ _ _ _ _) as [copt c].
  destruct (policy_freq hp =? 0)%Z; [discriminate|].
  destruct (total_it ag mod policy_freq hp =? 0)%Z.
  - destruct (actor_optimize W _ _ _ _) as [aopt a].
    injection H as <-. cbn [trace rewards_per_episode disk].
    rewrite !count_app. cbn. repeat split; lia.
  - injection H as <-. cbn [trace rewards_per_episode disk].
    rewrite !count_app. cbn. repeat split; lia.
Qed.

Lemma maybe_train_books (ag ag' : Agent W) (lc : Locals) (r : StepRand) :
  maybe_train hp ag lc r = Ok ag' -> same_books ag ag'.
Proof.
  destruct (maybe_train_cases W hp ag lc r)
    as [(_ & _ & _ & ->)|[(_ & ->)|(_ & _ & ->)]]; intros H.
  - exact (train_books _ _ _ H).
  - injection H as <-. repeat split.
  - discriminate.
Qed.

Lemma step_books (is_training : bool) (ag ag' : Agent W) (lc lc' : Locals)
      (r : StepRand) :
  step hp is_training ag lc r = Ok (ag', lc') -> same_books ag ag'.
Proof.
  intros H.
  destruct (step_Ok_inv _ _ _ _ _ _ _ _ H)
    as (action & e & ns & rw & te & tr & _ & _ & _ & Hm).
  destruct is_training.
  - apply maybe_train_books in Hm. exact Hm.
  - subst ag'. repeat split.
Qed.

Lemma steps_books (fuel : nat) (is_training : bool) (rnd : nat -> StepRand)
      (i : nat) (ag ag' : Agent W) (lc lc' : Locals) :
  steps hp fuel is_training rnd i ag lc = Finished (ag', lc') ->
  same_books ag ag'.
Proof.
  revert i ag lc. induction fuel as [|fuel IH]; intros i ag lc; simpl.
  - destruct (loop_cond hp lc); [discriminate|].
    intros H. injection H as <- <-. repeat split.
  - destruct (loop_cond hp lc).
    + destruct (step hp is_training ag lc (rnd i)) as [[ag1 lc1]|e] eqn:E;
        [|discriminate].
      intros H. apply IH in H. apply step_books in E.
      destruct E as (E1 & E2 & E3), H as (H1 & H2 & H3).
      repeat split; congruence.
    + intros H. injection H as <- <-. repeat split.
Qed.

(** The new-best-reward branch leaves everything but the tracker and the
    printed line as it was. *)
Lemma best_block_frame (episode : Z) (x : Q) (ag ag' : Agent W)
      (tk tk' : Trackers) :
  best_block episode x ag tk = Ok (ag', tk') ->
  best_average_reward tk' = best_average_reward tk
  /\ ((ag' = ag /\ tk' = tk)
      \/ (exists pct,
             gt_best x (best_reward tk) = true /\ (0 < episode)%Z
             /\ ag' = emit ag [Print (NewBestReward x pct episode)]
             /\ best_reward tk' = Fin x)).
Proof.
  unfold best_block.
  destruct (gt_best x (best_reward tk)) eqn:Hgt; cbn.
  - destruct (Z.ltb_spec 0 episode) as [Hep|Hep]; cbn.
    + intros H. apply bind_Ok_inv in H as (pct & _ & H).
      injection H as <- <-. split; [reflexivity|].
      right. exists pct. auto.
    + intros H. injection H as <- <-. auto.
  - intros H. injection H as <- <-. auto.
Qed.

Lemma average_block_saves (episode : Z) (ag : Agent W) (tk : Trackers) :
  let ag' := fst (average_block episode ag tk) in
  let due := checkpoint_due episode (rewards_per_episode ag) tk in
  rewards_per_episode ag' = rewards_per_episode ag
  /\ count is_save (trace ag')
     = (count is_save (trace ag) + if due then 1 else 0)%nat
  /\ disk ag' = (if due then Some (actor ag, critic ag) else disk ag).
Proof.
  unfold average_block, checkpoint_due.
  destruct ((episode + 1) mod 100 =? 0)%Z; cbn [andb fst].
  - cbn [emit rewards_per_episode].
    destruct (gt_best _ (best_average_reward tk)); cbn [fst].
    + cbn [emit save rewards_per_episode trace disk actor critic].
      rewrite !count_app. cbn. repeat split; lia.
    + cbn [emit rewards_per_episode trace disk].
      rewrite !count_app. cbn. repeat split; lia.
  - repeat split; lia.
Qed.

Lemma episode_end_saves (episode : Z) (x now : Q) (ag ag' : Agent W)
      (tk tk' : Trackers) :
  episode_end true episode x now ag tk = Ok (ag', tk') ->
  rewards_per_episode ag' = rewards_per_episode ag ++ [x]
  /\ count is_save (trace ag')
     = (count is_save (trace ag)
        + if checkpoint_due episode (rewards_per_episode ag') tk then 1 else 0)%nat
  /\ disk ag'
     = (if checkpoint_due episode (rewards_per_episode ag') tk
        then Some (actor ag, critic ag) else disk ag).
Proof.
  unfold episode_end.
  set (ag0 := mkAgent W _ _ _ _ _ _ _ _ (rewards_per_episode ag ++ [x]) _ _ _ _ _).
  set (ag1 := if Qltb 10 (now - last_graph_update_time ag0) then _ else ag0).
  assert (H1 : rewards_per_episode ag1 = rewards_per_episode ag ++ [x]
               /\ count is_save (trace ag1) = count is_save (trace ag)
               /\ disk ag1 = disk ag /\ actor ag1 = actor ag
               /\ critic ag1 = critic ag).
  { unfold ag1. destruct (Qltb 10 _); cbn [ag0 rewards_per_episode trace disk actor critic];
      rewrite ?count_app; cbn; repeat split; lia. }
  destruct H1 as (Hr1 & Hs1 & Hd1 & Ha1 & Hc1).
  pose proof (average_block_saves episode ag1 tk) as Hav.
  destruct (average_block episode ag1 tk) as [ag2 tk2]. cbn [fst] in Hav.
  destruct Hav as (Hr2 & Hs2 & Hd2).
  intros H.
  apply best_block_frame in H as (_ & [(-> & _)|(pct & _ & _ & -> & _)]).
  - rewrite Hr2, Hr1 in *. rewrite Hs2, Hd2, Hs1, Hd1, Ha1, Hc1.
    repeat split.
  - cbn [emit rewards_per_episode trace disk].
    rewrite count_app. cbn.
    rewrite Hr2, Hr1 in *. rewrite Hs2, Hd2, Hs1, Hd1, Ha1, Hc1.
    repeat split; lia.
Qed.

(** C10. In the new-best-reward branch the orchestrator overwrites the
    best-reward tracker and prints one line; it writes no checkpoint.  In
    training, the steps of an episode write none either, and a whole
    episode writes exactly one when [(episode + 1) % 100 == 0] and the mean
    of the last 100 returns exceeds the best average so far, and none
    otherwise. *)
Theorem checkpoint_only_every_100 :
  (forall (episode : Z) (x : Q) (ag ag' : Agent W) (tk tk' : Trackers),
      gt_best x (best_reward tk) = true -> (0 < episode)%Z ->
      best_block episode x ag tk = Ok (ag', tk') ->
      exists pct,
        ag' = emit ag [Print (NewBestReward x pct episode)]
        /\ tk' = mkTrackers (Fin x) (best_average_reward tk)
        /\ disk ag' = disk ag
        /\ count is_save (trace ag') = count is_save (trace ag))
  /\ (forall (fuel : nat) (rnd : nat -> StepRand) (i : nat)
             (ag ag' : Agent W) (lc lc' : Locals),
         steps hp fuel true rnd i ag lc = Finished (ag', lc') ->
         disk ag' = disk ag
         /\ count is_save (trace ag') = count is_save (trace ag))
  /\ (forall (fuel : nat) (episode : Z) (er : EpisodeRand)
             (ag ag' : Agent W) (tk tk' : Trackers),
         episode_body hp fuel true episode er ag tk = Finished (ag', tk') ->
         count is_save (trace ag')
         = (count is_save (trace ag)
            + if ((episode + 1) mod 100 =? 0)%Z
                 && gt_best (mean (lastn 100 (rewards_per_episode ag')))
                            (best_average_reward tk)
              then 1 else 0)%nat).
Proof.
  split; [|split].
  - intros episode x ag ag' tk tk' Hgt Hep H.
    unfold best_block in H. rewrite Hgt in H.
    destruct (Z.ltb_spec 0 episode) as [_|]; [|lia].
    cbn in H. apply bind_Ok_inv in H as (pct & _ & H).
    injection H as <- <-. exists pct.
    split; [reflexivity|]. split; [reflexivity|]. split; [reflexivity|].
    cbn [emit trace]. rewrite count_app. cbn. lia.
  - intros fuel rnd i ag ag' lc lc' H.
    apply steps_books in H as (_ & Hd & Hs). auto.
  - intros fuel episode er ag ag' tk tk' H.
    unfold episode_body in H.
    destruct (env_reset W (env ag)) as [e s0].
    destruct (steps hp fuel true (step_rand er) 0 (set_env ag e) _)
      as [[ag1 lc1]|x|] eqn:Es; try discriminate.
    destruct (episode_end true episode (episode_reward lc1) (now er) ag1 tk)
      as [[ag2 tk2]|x] eqn:Ee; [|discriminate].
    injection H as <- <-.
    apply steps_books in Es as (_ & _ & Hs). cbn in Hs.
    apply episode_end_saves in Ee as (_ & Hc & _).
    rewrite Hc, Hs. reflexivity.
Qed.

End Checkpoints.

(** At the end of episode 99 of the toy agent a first average is a new best
    and one checkpoint is written, although the new-best-reward branch runs
    too; at the end of episode 7 the new-best-reward branch runs and no
    checkpoint is written. *)
Lemma checkpoint_only_every_100_witness :
  (exists ag' tk',
      episode_end true 99 5 0 (Toy.fresh Toy.hp) (mkTrackers (Fin 2) NegInf)
      = Ok (ag', tk')
      /\ count is_save (trace ag') = 1%nat
      /\ best_reward tk' = Fin 5)
  /\ (exists ag' tk',
         best_block 7 5 (Toy.fresh Toy.hp) (mkTrackers (Fin 2) NegInf) = Ok (ag', tk')
         /\ count is_save (trace ag') = 0%nat
         /\ disk ag' = None).
Proof.
  split.
  - eexists. eexists. split; [vm_compute; reflexivity|]. split; reflexivity.
  - destruct (best_block 7 5 (Toy.fresh Toy.hp) (mkTrackers (Fin 2) NegInf))
      as [[ag' tk']|e] eqn:E; [|vm_compute in E; discriminate].
    exists ag', tk'.
    destruct (checkpoint_only_every_100 Toy.W Toy.hp) as (Hbest & _).
    destruct (Hbest 7%Z 5 (Toy.fresh Toy.hp) ag' (mkTrackers (Fin 2) NegInf) tk'
                    eq_refl eq_refl E)
      as (pct & _ & _ & Hd & Hs).
    split; [reflexivity|]. split; [rewrite Hs; reflexivity | rewrite Hd; reflexivity].
Defined.

(** * Further properties of the agent *)

(** ** Checkpoints: [save] and [load] *)

Section Checkpointing.

Variable W : Collaborators.

(** X1. [load] after [save] - immediately or after any further learning, as long
    as the files are the ones that [save] wrote - brings back exactly the
    live policy and critic parameters that were saved, and nothing else: the
    target networks, the optimizer states, the step counter, the store and
    the history stay those of the loading agent. *)
Theorem checkpoint_round_trip (ag : Agent W) :
  load (save ag) = Ok (save ag)
  /\ forall later : Agent W,
       disk later = disk (save ag) ->
       exists ag',
         load later = Ok ag'
         /\ actor ag' = actor ag /\ critic ag' = critic ag
         /\ actor_target ag' = actor_target later
         /\ critic_target ag' = critic_target later
         /\ actor_optimizer ag' = actor_optimizer later
         /\ critic_optimizer ag' = critic_optimizer later
         /\ total_it ag' = total_it later
         /\ replay_buffer ag' = replay_buffer later
         /\ rewards_per_episode ag' = rewards_per_episode later
         /\ trace ag' = trace later.
Proof.
  split; [reflexivity|].
  intros later Hd. unfold load. rewrite Hd. cbn.
  eexists. split; [reflexivity|]. cbn. repeat split.
Qed.


Lemma init_Ok_inv (hp : Hyper)
        (is_training endless continue_training : bool)
        (actor0 critic0 : Params) (opt_a opt_c : OptState W) (e : Env W)
        (files : option (Params * Params)) (start_time : Q) (ag : Agent W) :
  init W hp is_training endless continue_training actor0 critic0
       opt_a opt_c e files start_time = Ok ag ->
  replay_buffer ag = ReplayBuffer.init (replay_buffer_size hp)
  /\ total_it ag = 0%Z
  /\ rewards_per_episode ag = []
  /\ actor_target ag = actor0
  /\ critic_target ag = critic0
  /\ (if negb is_training || continue_training
      then files = Some (actor ag, critic ag)
      else actor ag = actor0 /\ critic ag = critic0)
  /\ episodes ag = (if endless || negb is_training then Count
                    else Range (max_episodes hp))
  /\ disk ag = files.
Proof.
  unfold init, load. cbn.
  destruct is_training, continue_training, files as [[a c]|]; cbn;
    intros H; try discriminate; injection H as <-; cbn; repeat split.
Qed.


(** X3. A freshly built agent: empty store of the configured capacity, counter
    0, empty history.  Its target networks are copies of the freshly
    initialised parameters in every mode; the live networks are the loaded
    ones in evaluation and continue-training mode - so after a checkpoint is
    loaded the targets are not the loaded parameters - and the fresh ones
    otherwise.  The episode iterator is unbounded exactly in endless or
    evaluation mode. *)
Theorem init_state (hp : Hyper)
        (is_training endless continue_training : bool)
        (actor0 critic0 : Params) (opt_a opt_c : OptState W) (e : Env W)
        (files : option (Params * Params)) (start_time : Q) (ag : Agent W) :
  init W hp is_training endless continue_training actor0 critic0
       opt_a opt_c e files start_time = Ok ag ->
  replay_buffer ag = ReplayBuffer.init (replay_buffer_size hp)
  /\ total_it ag = 0%Z
  /\ rewards_per_episode ag = []
  /\ actor_target ag = actor0
  /\ critic_target ag = critic0
  /\ (if negb is_training || continue_training
      then files = Some (actor ag, critic ag)
      else actor ag = actor0 /\ critic ag = critic0)
  /\ episodes ag = (if endless || negb is_training then Count
                    else Range (max_episodes hp))
  /\ disk ag = files.
Proof.
  apply init_Ok_inv.
Qed.

End Checkpointing.

Lemma init_state_witness :
  exists ag,
    init Toy.W Toy.hp true false true [[1 # 2]] [[1]] tt tt 0%Z
         (Some ([[3 # 4]], [[2]])) 0 = Ok ag
    /\ actor ag = [[3 # 4]] /\ actor_target ag = [[1 # 2]].
Proof.
  destruct (init Toy.W Toy.hp true false true [[1 # 2]] [[1]] tt tt 0%Z
                 (Some ([[3 # 4]], [[2]])) 0) as [ag|x] eqn:E;
    [|vm_compute in E; discriminate].
  exists ag. split; [reflexivity|].
  destruct (init_state Toy.W Toy.hp _ _ _ _ _ _ _ _ _ _ ag E)
    as (_ & _ & _ & Hat & _ & Hf & _).
  cbn in Hf. injection Hf as Ha _. split; [symmetry; exact Ha | exact Hat].
Defined.

(** ** What the loops of [run] keep *)

Lemma add_bounded (rb : ReplayBuffer) (t : Transition) :
  bounded rb -> bounded (ReplayBuffer.add rb t).
Proof.
  unfold bounded, ReplayBuffer.add. cbn [buffer maxlen]. intros Hb.
  destruct (Nat.ltb (maxlen rb) (length (buffer rb ++ [t]))) eqn:E.
  - apply Nat.ltb_lt in E. rewrite length_app in E. cbn [length] in E.
    destruct (buffer rb) as [|x l]; cbn [app tl length] in *; [lia|].
    rewrite length_app. cbn [length]. lia.
  - apply Nat.ltb_ge in E. exact E.
Qed.

Section RunFrames.

Variable W : Collaborators.
Variable hp : Hyper.

(** One pass of the loop body in training mode: exactly one transition is
    stored, leading from the old state to the new one. *)
Lemma step_training (ag ag' : Agent W) (lc lc' : Locals) (r : StepRand) :
  step hp true ag lc r = Ok (ag', lc') ->
  exists t,
    replay_buffer ag' = ReplayBuffer.add (replay_buffer ag) t
    /\ t_state t = state lc
    /\ t_next_state t = state lc'
    /\ t_done t = terminated lc'
    /\ episode_reward lc' = episode_reward lc + t_reward t
    /\ step_count lc' = (step_count lc + 1)%Z
    /\ episodes ag' = episodes ag.
Proof.
  intros H.
  destruct (step_Ok_inv _ _ _ _ _ _ _ _ H)
    as (action & e & ns & rw & te & tr & _ & _ & -> & Hm).
  pose proof (maybe_train_buffer _ _ _ _ _ _ Hm) as Hb. cbn in Hb.
  eexists. split; [exact Hb|]. cbn.
  repeat (split; [reflexivity|]).
  match type of Hm with
  | maybe_train _ ?base _ _ = _ =>
      destruct (maybe_train_cases W hp base lc r)
        as [(_ & _ & _ & E)|[(_ & E)|(_ & _ & E)]]; rewrite E in Hm
  end.
  - destruct (train_Ok_inv _ _ _ _ _ Hm) as (b & tq & _ & _ & _ & _ & _ & He & _).
    exact He.
  - injection Hm as <-. reflexivity.
  - discriminate.
Qed.

(** One pass of the loop body in evaluation mode only advances the
    environment. *)
Lemma step_evaluation (ag ag' : Agent W) (lc lc' : Locals) (r : StepRand) :
  step hp false ag lc r = Ok (ag', lc') -> ag' = set_env ag (env ag').
Proof.
  intros H.
  destruct (step_Ok_inv _ _ _ _ _ _ _ _ H)
    as (action & e & ns & rw & te & tr & _ & _ & _ & ->).
  reflexivity.
Qed.

Lemma steps_evaluation (fuel : nat) (rnd : nat -> StepRand) (i : nat)
      (ag ag' : Agent W) (lc lc' : Locals) :
  steps hp fuel false rnd i ag lc = Finished (ag', lc') ->
  ag' = set_env ag (env ag').
Proof.
  revert i ag lc. induction fuel as [|fuel IH]; intros i ag lc; simpl.
  - destruct (loop_cond hp lc); [discriminate|].
    intros H. injection H as <- _. destruct ag; reflexivity.
  - destruct (loop_cond hp lc).
    + destruct (step hp false ag lc (rnd i)) as [[ag1 lc1]|x] eqn:E;
        [|discriminate].
      intros H. apply IH in H. apply step_evaluation in E.
      rewrite H. rewrite E. reflexivity.
    + intros H. injection H as <- _. destruct ag; reflexivity.
Qed.

(** The iterator and the capacity of the store are never changed by a step,
    and a store within its capacity stays so. *)
Lemma step_config (is_training : bool) (ag ag' : Agent W) (lc lc' : Locals)
      (r : StepRand) :
  step hp is_training ag lc r = Ok (ag', lc') ->
  episodes ag' = episodes ag
  /\ maxlen (replay_buffer ag') = maxlen (replay_buffer ag)
  /\ (bounded (replay_buffer ag) -> bounded (replay_buffer ag')).
Proof.
  destruct is_training; intros H.
  - destruct (step_training _ _ _ _ _ H) as (t & Hb & _ & _ & _ & _ & _ & He).
    rewrite Hb. split; [exact He|]. split; [reflexivity|]. apply add_bounded.
  - apply step_evaluation in H. rewrite H. cbn. auto.
Qed.

Lemma steps_config (fuel : nat) (is_training : bool) (rnd : nat -> StepRand)
      (i : nat) (ag ag' : Agent W) (lc lc' : Locals) :
  steps hp fuel is_training rnd i ag lc = Finished (ag', lc') ->
  episodes ag' = episodes ag
  /\ maxlen (replay_buffer ag') = maxlen (replay_buffer ag)
  /\ (bounded (replay_buffer ag) -> bounded (replay_buffer ag')).
Proof.
  revert i ag lc. induction fuel as [|fuel IH]; intros i ag lc; simpl.
  - destruct (loop_cond hp lc); [discriminate|].
    intros H. injection H as <- _. auto.
  - destruct (loop_cond hp lc).
    + destruct (step hp is_training ag lc (rnd i)) as [[ag1 lc1]|x] eqn:E;
        [|discriminate].
      intros H. apply IH in H. apply step_config in E.
      destruct E as (E1 & E2 & E3), H as (H1 & H2 & H3).
      split; [congruence|]. split; [congruence | auto].
    + intros H. injection H as <- _. auto.
Qed.

(** The end of an episode appends the episode's return to the history and
    leaves the store, the counter, the iterator and all parameters alone. *)
Lemma episode_end_frame (is_training : bool) (episode : Z) (x now : Q)
      (ag ag' : Agent W) (tk tk' : Trackers) :
  episode_end is_training episode x now ag tk = Ok (ag', tk') ->
  rewards_per_episode ag' = rewards_per_episode ag ++ [x]
  /\ episodes ag' = episodes ag
  /\ replay_buffer ag' = replay_buffer ag
  /\ total_it ag' = total_it ag
  /\ actor ag' = actor ag /\ critic ag' = critic ag
  /\ actor_target ag' = actor_target ag /\ critic_target ag' = critic_target ag.
Proof.
  unfold episode_end, average_block, best_block.
  destruct is_training;
    [destruct (Qltb 10 _); destruct (_ =? 0)%Z;
     [destruct (gt_best _ (best_average_reward tk))| |
      destruct (gt_best _ (best_average_reward tk))|];
     cbn; destruct (_ && _); cbn;
     intros H; try apply bind_Ok_inv in H as (pct & _ & H)|
     intros H];
    injection H as <- _; cbn; repeat split.
Qed.

Lemma episode_body_frame (fuel : nat) (is_training : bool) (episode : Z)
      (er : EpisodeRand) (ag ag' : Agent W) (tk tk' : Trackers) :
  episode_body hp fuel is_training episode er ag tk = Finished (ag', tk') ->
  (exists x, rewards_per_episode ag' = rewards_per_episode ag ++ [x])
  /\ episodes ag' = episodes ag
  /\ maxlen (replay_buffer ag') = maxlen (replay_buffer ag)
  /\ (bounded (replay_buffer ag) -> bounded (replay_buffer ag')).
Proof.
  unfold episode_body.
  destruct (env_reset W (env ag)) as [e s0].
  destruct (if is_training then Ok (set_env ag e) else load (set_env ag e))
    as [ag1|x] eqn:El; [|discriminate].
  assert (H1 : rewards_per_episode ag1 = rewards_per_episode ag
               /\ episodes ag1 = episodes ag
               /\ replay_buffer ag1 = replay_buffer ag).
  { destruct is_training; [injection El as <-; repeat split|].
    unfold load in El. destruct (disk _) as [[a c]|]; [|discriminate].
    injection El as <-. repeat split. }
  destruct H1 as (Hr1 & He1 & Hb1).
  destruct (steps hp fuel is_training (step_rand er) 0 ag1 _)
    as [[ag2 lc]|x|] eqn:Es; try discriminate.
  destruct (steps_config _ _ _ _ _ _ _ _ Es) as (He2 & Hm2 & Hbd2).
  apply steps_books in Es as (Hr2 & _ & _).
  destruct (episode_end _ _ _ _ _ _) as [[ag3 tk3]|x] eqn:Ee; [|discriminate].
  intros H. injection H as <- _.
  apply episode_end_frame in Ee as (Hr3 & He3 & Hb3 & _).
  split; [exists (episode_reward lc); congruence|].
  split; [congruence|]. rewrite Hb3. split; [congruence|].
  rewrite <- Hb1. exact Hbd2.
Qed.

End RunFrames.

Section RunProperties.

Variable W : Collaborators.
Variable hp : Hyper.

Lemma run_from_episode_count (efuel fuel : nat) (is_training : bool)
      (episode : Z) (rnd : nat -> EpisodeRand) (ag ag' : Agent W)
      (tk tk' : Trackers) :
  run_from hp efuel fuel is_training episode rnd ag tk = Finished (ag', tk') ->
  exists n,
    episodes ag = Range n
    /\ episodes ag' = Range n
    /\ length (rewards_per_episode ag')
       = (length (rewards_per_episode ag) + Z.to_nat (n - episode))%nat.
Proof.
  revert episode ag tk.
  induction efuel as [|efuel IH]; intros episode ag tk; simpl.
  - destruct (episodes ag) as [n|] eqn:Ee; cbn; [|discriminate].
    destruct (Z.ltb_spec episode n) as [Hlt|Hge]; [discriminate|].
    intros H. injection H as <- _. exists n. rewrite Ee.
    repeat split. lia.
  - destruct (episodes ag) as [n|] eqn:Ee; cbn.
    + destruct (Z.ltb_spec episode n) as [Hlt|Hge].
      * destruct (episode_body hp fuel is_training episode _ ag tk)
          as [[ag1 tk1]|x|] eqn:E; try discriminate.
        destruct (episode_body_frame _ _ _ _ _ _ _ _ _ _ E)
          as ((x & Hr) & He & _).
        intros H. destruct (IH _ _ _ H) as (n' & Hn1 & Hn' & Hlen).
        rewrite He, Ee in Hn1. injection Hn1 as <-.
        exists n. split; [reflexivity|]. split; [exact Hn'|].
        rewrite Hlen, Hr, length_app. cbn. lia.
      * intros H. injection H as <- _. exists n. rewrite Ee.
        repeat split. lia.
    + destruct (episode_body hp fuel is_training episode _ ag tk)
        as [[ag1 tk1]|x|] eqn:E; try discriminate.
      destruct (episode_body_frame _ _ _ _ _ _ _ _ _ _ E) as (_ & He & _).
      intros H. destruct (IH _ _ _ H) as (n' & Hn1 & _).
      rewrite He, Ee in Hn1. discriminate.
Qed.

(** X4. A call of [run] that comes back has run one episode for every number in
    [range(max_episodes)] - none for a non-positive bound - and has appended
    exactly one return per episode to the history; with the unbounded
    iterator [itertools.count()] (endless or evaluation mode) [run] never
    comes back: it goes on until something raises. *)
Theorem run_episode_count (efuel fuel : nat) (is_training : bool)
        (rnd : nat -> EpisodeRand) (ag ag' : Agent W) (tk' : Trackers) :
  run hp efuel fuel is_training rnd ag = Finished (ag', tk') ->
  exists n,
    episodes ag = Range n
    /\ length (rewards_per_episode ag')
       = (length (rewards_per_episode ag) + Z.to_nat n)%nat.
Proof.
  intros H. unfold run in H.
  destruct (run_from_episode_count _ _ _ _ _ _ _ _ _ H) as (n & Hn & _ & Hlen).
  exists n. split; [exact Hn|]. rewrite Hlen, Z.sub_0_r. reflexivity.
Qed.

Lemma run_from_bounded (efuel fuel : nat) (is_training : bool)
      (episode : Z) (rnd : nat -> EpisodeRand) (ag ag' : Agent W)
      (tk tk' : Trackers) :
  bounded (replay_buffer ag) ->
  run_from hp efuel fuel is_training episode rnd ag tk = Finished (ag', tk') ->
  maxlen (replay_buffer ag') = maxlen (replay_buffer ag)
  /\ bounded (replay_buffer ag').
Proof.
  revert episode ag tk.
  induction efuel as [|efuel IH]; intros episode ag tk Hb; simpl.
  - destruct (has_next _ _); [discriminate|].
    intros H. injection H as <- _. auto.
  - destruct (has_next _ _).
    + destruct (episode_body hp fuel is_training episode _ ag tk)
        as [[ag1 tk1]|x|] eqn:E; try discriminate.
      destruct (episode_body_frame _ _ _ _ _ _ _ _ _ _ E) as (_ & _ & Hm & Hbd).
      intros H. destruct (IH _ _ _ (Hbd Hb) H) as (Hm' & Hb').
      split; [congruence | exact Hb'].
    + intros H. injection H as <- _. auto.
Qed.

(** X5. Whatever happens during a run, the replay store keeps the capacity it
    was built with and never holds more transitions than that. *)
Theorem run_store_bounded (efuel fuel : nat) (is_training : bool)
        (rnd : nat -> EpisodeRand) (ag ag' : Agent W) (tk' : Trackers) :
  (ReplayBuffer.size (replay_buffer ag) <= maxlen (replay_buffer ag))%nat ->
  run hp efuel fuel is_training rnd ag = Finished (ag', tk') ->
  maxlen (replay_buffer ag') = maxlen (replay_buffer ag)
  /\ (ReplayBuffer.size (replay_buffer ag') <= maxlen (replay_buffer ag))%nat.
Proof.
  intros Hb H.
  destruct (run_from_bounded _ _ _ _ _ _ _ _ _ Hb H) as (Hm & Hb').
  split; [exact Hm|]. unfold bounded in Hb'. rewrite Hm in Hb'. exact Hb'.
Qed.

(** X6. An evaluation episode reloads the checkpoint, then only acts: it stores
    no transition, performs no learning step, leaves the target networks and
    the trackers alone, writes no checkpoint, and ends by printing the
    episode's return, which it appends to the history. *)
Theorem evaluation_episode (fuel : nat) (episode : Z) (er : EpisodeRand)
        (ag ag' : Agent W) (tk tk' : Trackers) :
  episode_body hp fuel false episode er ag tk = Finished (ag', tk') ->
  exists a c x,
    disk ag = Some (a, c)
    /\ actor ag' = a /\ critic ag' = c
    /\ replay_buffer ag' = replay_buffer ag
    /\ total_it ag' = total_it ag
    /\ actor_target ag' = actor_target ag
    /\ critic_target ag' = critic_target ag
    /\ disk ag' = disk ag
    /\ tk' = tk
    /\ rewards_per_episode ag' = rewards_per_episode ag ++ [x]
    /\ trace ag' = trace ag ++ [Print (ThisEpisodeReward x)].
Proof.
  unfold episode_body.
  destruct (env_reset W (env ag)) as [e s0].
  unfold load. cbn [disk set_env].
  destruct (disk ag) as [[a c]|] eqn:Ed; [|discriminate].
  destruct (steps hp fuel false (step_rand er) 0 _ _)
    as [[ag2 lc]|x|] eqn:Es; try discriminate.
  apply steps_evaluation in Es.
  cbn [episode_end]. intros H. injection H as <- <-.
  exists a, c, (episode_reward lc).
  rewrite Es. cbn. repeat split.
Qed.

End RunProperties.

Lemma run_episode_count_witness :
  exists ag' tk',
    run Toy.hp 5 10 true (fun _ => Toy.episode_rand0) (Toy.fresh Toy.hp)
    = Finished (ag', tk')
    /\ length (rewards_per_episode ag') = 2%nat.
Proof.
  destruct (run Toy.hp 5 10 true (fun _ => Toy.episode_rand0) (Toy.fresh Toy.hp))
    as [[ag' tk']|x|] eqn:E;
    [|vm_compute in E; discriminate|vm_compute in E; discriminate].
  exists ag', tk'. split; [reflexivity|].
  destruct (run_episode_count Toy.W Toy.hp _ _ _ _ _ _ _ E) as (n & Hn & Hlen).
  cbn in Hn. injection Hn as <-. exact Hlen.
Defined.

Lemma run_store_bounded_witness :
  exists ag' tk',
    run Toy.hp 5 10 true (fun _ => Toy.episode_rand0) (Toy.fresh Toy.hp)
    = Finished (ag', tk')
    /\ (ReplayBuffer.size (replay_buffer ag') <= 3)%nat.
Proof.
  destruct (run Toy.hp 5 10 true (fun _ => Toy.episode_rand0) (Toy.fresh Toy.hp))
    as [[ag' tk']|x|] eqn:E;
    [|vm_compute in E; discriminate|vm_compute in E; discriminate].
  exists ag', tk'. split; [reflexivity|].
  apply (run_store_bounded Toy.W Toy.hp _ _ _ _ (Toy.fresh Toy.hp) ag' tk'
           ltac:(cbn; lia) E).
Defined.

Lemma evaluation_episode_witness :
  exists ag' tk',
    episode_body Toy.hp 10 false 0 Toy.episode_rand0 Toy.evaluating
                 (mkTrackers NegInf NegInf) = Finished (ag', tk')
    /\ replay_buffer ag' = replay_buffer Toy.evaluating
    /\ total_it ag' = 0%Z.
Proof.
  destruct (episode_body Toy.hp 10 false 0 Toy.episode_rand0 Toy.evaluating
                         (mkTrackers NegInf NegInf))
    as [[ag' tk']|x|] eqn:E;
    [|vm_compute in E; discriminate|vm_compute in E; discriminate].
  exists ag', tk'. split; [reflexivity|].
  destruct (evaluation_episode Toy.W Toy.hp _ _ _ _ _ _ _ E)
    as (a & c & x & _ & _ & _ & Hb & Ht & _).
  split; [exact Hb | exact Ht].
Defined.

(** ** The transitions of one episode *)

Section EpisodeTransitions.

Variable W : Collaborators.
Variable hp : Hyper.

Lemma steps_transitions (fuel : nat) (rnd : nat -> StepRand) (i : nat)
      (ag ag' : Agent W) (lc lc' : Locals) :
  steps hp fuel true rnd i ag lc = Finished (ag', lc') ->
  exists ts,
    replay_buffer ag' = ReplayBuffer.add_all (replay_buffer ag) ts
    /\ Z.of_nat (length ts) = (step_count lc' - step_count lc)%Z
    /\ chained (state lc) ts
    /\ state lc' = final_state (state lc) ts
    /\ episode_reward lc' == episode_reward lc + vsum (map t_reward ts)
    /\ live_until_last ts
    /\ (forall d, ts <> [] -> t_done (last ts d) = terminated lc')
    /\ (loop_cond hp lc = false -> ts = [])
    /\ (ts = [] -> lc' = lc).
Proof.
  revert i ag lc. induction fuel as [|fuel IH]; intros i ag lc; simpl.
  - destruct (loop_cond hp lc) eqn:Ec; [discriminate|].
    intros H. injection H as <- <-. exists []. cbn.
    repeat split; try lia; try ring; try congruence.
  - destruct (loop_cond hp lc) eqn:Ec.
    + destruct (step hp true ag lc (rnd i)) as [[ag1 lc1]|x] eqn:E;
        [|discriminate].
      intros H.
      destruct (IH _ _ _ H)
        as (ts & Hb & Hn & Hch & Hfin & Hrw & Hlive & Hlast & Hstop & Hnil).
      destruct (step_training _ _ _ _ _ _ _ E)
        as (t & Hb1 & Hs & Hns & Hd & Her & Hsc & _).
      exists (t :: ts). cbn [ReplayBuffer.add_all fold_left length chained
                             final_state map live_until_last].
      change (vsum (t_reward t :: map t_reward ts))
        with (t_reward t + vsum (map t_reward ts)).
      split; [rewrite Hb, Hb1; reflexivity|].
      split; [lia|].
      split; [split; [exact Hs | rewrite Hns; exact Hch]|].
      split; [rewrite Hns; exact Hfin|].
      split; [rewrite Hrw, Her; ring|].
      split.
      { split; [|exact Hlive]. intros Hne. rewrite Hd.
        destruct (loop_cond hp lc1) eqn:Ec1.
        - unfold loop_cond in Ec1. destruct (terminated lc1); [discriminate|].
          reflexivity.
        - elim Hne. auto. }
      split.
      { intros d _. destruct ts as [|t' ts'].
        - cbn. rewrite (Hnil eq_refl). exact Hd.
        - change (last (t :: t' :: ts') d) with (last (t' :: ts') d).
          apply Hlast. discriminate. }
      split; [discriminate | discriminate].
    + intros H. injection H as <- <-. exists []. cbn.
      repeat split; try lia; try ring; try congruence.
Qed.

(** X7. In training mode the step loop of one episode stores exactly one
    transition per environment step, in order.  The stored transitions form
    a chain from the episode's first state to its last (each starts in the
    state the previous one ended in); their rewards add up to the episode's
    return; only the last of them can carry the terminal flag, and it
    carries the value [terminated] has when the loop ends (so an episode cut
    short by the environment's truncation signal ends with a non-terminal
    transition). *)
Theorem episode_transitions (fuel : nat) (rnd : nat -> StepRand) (i : nat)
        (ag ag' : Agent W) (lc lc' : Locals) :
  steps hp fuel true rnd i ag lc = Finished (ag', lc') ->
  exists ts,
    replay_buffer ag' = ReplayBuffer.add_all (replay_buffer ag) ts
    /\ Z.of_nat (length ts) = (step_count lc' - step_count lc)%Z
    /\ chained (state lc) ts
    /\ state lc' = final_state (state lc) ts
    /\ episode_reward lc' == episode_reward lc + vsum (map t_reward ts)
    /\ live_until_last ts
    /\ (forall d, ts <> [] -> t_done (last ts d) = terminated lc').
Proof.
  intros H.
  destruct (steps_transitions _ _ _ _ _ _ _ H)
    as (ts & H1 & H2 & H3 & H4 & H5 & H6 & H7 & _).
  exists ts. repeat (split; [assumption|]). exact H7.
Qed.

End EpisodeTransitions.

Lemma episode_transitions_witness :
  exists ag' lc' ts,
    steps Toy.hp 10 true (fun _ => Toy.step_rand0) 0 (Toy.fresh Toy.hp)
          Toy.locals0 = Finished (ag', lc')
    /\ replay_buffer ag'
       = ReplayBuffer.add_all (replay_buffer (Toy.fresh Toy.hp)) ts
    /\ Z.of_nat (length ts) = 4%Z.
Proof.
  destruct (steps Toy.hp 10 true (fun _ => Toy.step_rand0) 0 (Toy.fresh Toy.hp)
                  Toy.locals0) as [[ag' lc']|x|] eqn:E;
    [|vm_compute in E; discriminate|vm_compute in E; discriminate].
  exists ag', lc'.
  destruct (episode_transitions Toy.W Toy.hp _ _ _ _ _ _ _ E)
    as (ts & Hb & Hn & _).
  exists ts. split; [reflexivity|]. split; [exact Hb|].
  rewrite Hn. vm_compute in E. injection E as _ <-. reflexivity.
Defined.

(** ** The entry point *)

Section Main.

Variable W : Collaborators.
Variable hp : Hyper.

(** X8. The program comes back only from a bounded training run
    ([--train] without [--endless]), and then after exactly
    [max_episodes] episodes; started for evaluation without a checkpoint on
    disk it stops at once with the error of the missing file. *)
Theorem main_outcome (train_flag endless continue_training : bool)
        (actor0 critic0 : Params) (opt_a opt_c : OptState W) (e : Env W)
        (files : option (Params * Params)) (start_time : Q)
        (efuel fuel : nat) (rnd : nat -> EpisodeRand) :
  (forall (ag' : Agent W) (tk' : Trackers),
      main W hp train_flag endless continue_training actor0 critic0
           opt_a opt_c e files start_time efuel fuel rnd = Finished (ag', tk') ->
      train_flag = true /\ endless = false
      /\ length (rewards_per_episode ag') = Z.to_nat (max_episodes hp))
  /\ (train_flag = false -> files = None ->
      main W hp train_flag endless continue_training actor0 critic0
           opt_a opt_c e files start_time efuel fuel rnd
      = Threw FileNotFoundError).
Proof.
  unfold main. split.
  - intros ag' tk'.
    destruct (init W hp train_flag endless continue_training actor0 critic0
                   opt_a opt_c e files start_time) as [ag|x] eqn:Ei;
      [|discriminate].
    intros H.
    unfold run in H.
    destruct (run_from_episode_count _ _ _ _ _ _ _ _ _ _ _ H)
      as (n & Hn & _ & Hlen).
    destruct (init_Ok_inv _ _ _ _ _ _ _ _ _ _ _ _ _ Ei)
      as (_ & _ & Hr & _ & _ & _ & He & _).
    rewrite Hn in He. rewrite Hr, Z.sub_0_r in Hlen. cbn in Hlen.
    destruct endless, train_flag; cbn in He; try discriminate.
    injection He as ->. auto.
  - intros -> ->. reflexivity.
Qed.

End Main.

Lemma main_outcome_witness :
  exists ag' tk',
    main Toy.W Toy.hp true false false [[1 # 2]] [[1]] tt tt 0%Z None 0
         5 10 (fun _ => Toy.episode_rand0) = Finished (ag', tk')
    /\ length (rewards_per_episode ag') = 2%nat.
Proof.
  destruct (main Toy.W Toy.hp true false false [[1 # 2]] [[1]] tt tt 0%Z None 0
                 5 10 (fun _ => Toy.episode_rand0)) as [[ag' tk']|x|] eqn:E;
    [|vm_compute in E; discriminate|vm_compute in E; discriminate].
  exists ag', tk'. split; [reflexivity|].
  destruct (main_outcome Toy.W Toy.hp true false false [[1 # 2]] [[1]] tt tt
              0%Z None 0 5%nat 10%nat (fun _ => Toy.episode_rand0)) as (Hfin & _).
  destruct (Hfin _ _ E) as (_ & _ & Hlen). exact Hlen.
Defined.

(** ** More on the soft update *)

Lemma tensor_eq_refl (t : Tensor) : Forall2 Qeq t t.
Proof.
  induction t; constructor; [reflexivity | assumption].
Qed.

Lemma params_eq_refl (p : Params) : params_eq p p.
Proof.
  unfold params_eq. induction p; constructor; [apply tensor_eq_refl | assumption].
Qed.

Lemma polyak_tau_0 (tau : Q) (p t : Tensor) :
  tau == 0 -> Forall2 Qeq (polyak tau p t) t.
Proof.
  intros H0. revert t. induction p as [|x p IH]; intros [|y t]; cbn;
    try apply tensor_eq_refl.
  constructor; [rewrite H0; ring | apply IH].
Qed.

Lemma polyak_tau_1 (tau : Q) (p t : Tensor) :
  tau == 1 -> length p = length t -> Forall2 Qeq (polyak tau p t) p.
Proof.
  intros H1. revert t. induction p as [|x p IH]; intros [|y t] Hl; cbn in *;
    try discriminate; [constructor|].
  constructor; [rewrite H1; ring | apply IH; lia].
Qed.

Lemma polyak_same (tau : Q) (p : Tensor) : Forall2 Qeq (polyak tau p p) p.
Proof.
  induction p as [|x p IH]; cbn; constructor; [ring | exact IH].
Qed.

(** X9. The two extremes and the fixed point of the soft update: with [tau = 0]
    the targets do not move; with [tau = 1] a target of the same structure
    becomes a copy of the live network; and a target that equals its live
    network (as right after construction) stays equal to it for any
    [tau]. *)
Theorem soft_update_extremes (tau : Q) :
  (tau == 0 -> forall live target : Params,
      params_eq (soft_update tau live target) target)
  /\ (tau == 1 -> forall live target : Params,
         same_shape live target ->
         params_eq (soft_update tau live target) live)
  /\ (forall p : Params, params_eq (soft_update tau p p) p).
Proof.
  unfold params_eq, same_shape. split; [|split].
  - intros H0 live. induction live as [|p live IH]; intros [|t target]; cbn;
      try apply params_eq_refl.
    constructor; [apply polyak_tau_0; exact H0 | apply IH].
  - intros H1 live target Hs. induction Hs as [|p t live target Hl _ IH]; cbn;
      constructor; [apply polyak_tau_1; assumption | exact IH].
  - intros p. induction p as [|t p IH]; cbn; constructor;
      [apply polyak_same | exact IH].
Qed.

(** X10. After [n] soft updates against a live value [a] that does not change,
    the distance of the target from [a] is [(1 - tau)^n] times what it was:
    the target tracks the live value geometrically. *)
Theorem soft_update_closed_form (tau a b : Q) (n : nat) :
  exists x,
    Nat.iter n (soft_update tau [[a]]) [[b]] = [[x]]
    /\ x - a == Qpow (1 - tau) n * (b - a).
Proof.
  induction n as [|n (x & Hx & Hd)].
  - exists b. split; [reflexivity|]. cbn [Qpow]. ring.
  - exists (tau * a + (1 - tau) * x). split.
    + rewrite Nat.iter_succ, Hx. reflexivity.
    + cbn [Qpow].
      setoid_replace (tau * a + (1 - tau) * x - a) with ((1 - tau) * (x - a))
        by ring.
      rewrite Hd. ring.
Qed.

(** ** Failure modes of sampling and of the learning step *)

Lemma random_sample_empty_draw (pop : list Transition) :
  ReplayBuffer.random_sample pop 0 [] = Ok [].
Proof.
  unfold ReplayBuffer.random_sample. cbn.
  destruct (Z.ltb_spec (Z.of_nat (length pop)) 0); [lia | reflexivity].
Qed.

Lemma sample_raises (rb : ReplayBuffer) (k : Z) (d : list nat) :
  ((k < 0)%Z -> ReplayBuffer.sample rb k d = Raise SampleNegative)
  /\ ((0 <= k)%Z -> (Z.of_nat (ReplayBuffer.size rb) < k)%Z ->
      ReplayBuffer.sample rb k d = Raise SampleLarger)
  /\ (k = 0%Z -> d = [] -> ReplayBuffer.sample rb k d = Raise UnpackMismatch)
  /\ (forall b, ReplayBuffer.sample rb k d = Ok b ->
      (1 <= k <= Z.of_nat (ReplayBuffer.size rb))%Z
      /\ ReplayBuffer.is_draw (ReplayBuffer.size rb) k d).
Proof.
  unfold ReplayBuffer.sample, ReplayBuffer.size. split; [|split; [|split]].
  - intros Hk. unfold ReplayBuffer.random_sample.
    destruct (Z.ltb_spec k 0); [reflexivity | lia].
  - intros Hk Hn. unfold ReplayBuffer.random_sample.
    destruct (Z.ltb_spec k 0); [lia|].
    destruct (Z.ltb_spec (Z.of_nat (length (buffer rb))) k); [reflexivity | lia].
  - intros -> ->. rewrite random_sample_empty_draw. reflexivity.
  - intros b H. apply bind_Ok_inv in H as (batch & Hs & H).
    apply random_sample_Ok in Hs as (Hk & Hd & Hl & _).
    split; [|exact Hd].
    destruct batch; [discriminate|]. cbn in Hl. lia.
Qed.

(** X11. [sample] refuses a negative batch size and a batch size above the number
    of stored transitions (both within [random.sample]), and a batch size of
    zero (the unpacking of the empty [zip]); so whenever it returns, the
    batch size is between 1 and the size of the store. *)
Theorem sample_failure_modes (rb : ReplayBuffer) (k : Z) (d : list nat) :
  ((k < 0)%Z -> ReplayBuffer.sample rb k d = Raise SampleNegative)
  /\ ((0 <= k)%Z -> (Z.of_nat (ReplayBuffer.size rb) < k)%Z ->
      ReplayBuffer.sample rb k d = Raise SampleLarger)
  /\ (k = 0%Z -> d = [] -> ReplayBuffer.sample rb k d = Raise UnpackMismatch)
  /\ (forall b, ReplayBuffer.sample rb k d = Ok b ->
      (1 <= k <= Z.of_nat (ReplayBuffer.size rb))%Z
      /\ ReplayBuffer.is_draw (ReplayBuffer.size rb) k d).
Proof.
  apply sample_raises.
Qed.

Section TrainFailures.

Variable W : Collaborators.
Variable hp : Hyper.



End TrainFailures.



(** ** Inverted action bounds *)

Lemma clamp_inverted (x lo hi : Q) : hi < lo -> clamp x lo hi == hi.
Proof.
  intros H. unfold clamp. apply Q.min_r.
  apply Qle_trans with lo; [lra | apply Q.le_max_r].
Qed.

Section InvertedBounds.

Variable W : Collaborators.
Variable hp : Hyper.

(** X14. With a negative [action_high] the clip interval
    [[-action_high, action_high]] is empty, and the clip then returns its
    upper bound: every exploring action and every smoothed target action is
    the constant [action_high] in each component, whatever the policy and
    the noise say. *)
Theorem inverted_bounds_collapse :
  action_high hp < 0 ->
  (forall (ag : Agent W) (lc : Locals) (r : StepRand) (a : Vec),
      run_action hp true ag lc r = Ok a ->
      Forall (fun x => x == action_high hp) a)
  /\ (forall (target : Params) (acts next_state : list Vec)
             (z : nat -> nat -> Q) (next_action : list Vec),
         smoothed_action W hp target acts next_state z = Ok next_action ->
         Forall (Forall (fun x => x == action_high hp)) next_action).
Proof.
  intros Hah.
  assert (Hc : forall v : Vec,
             Forall (fun x => x == action_high hp)
                    (vclamp v (- action_high hp) (action_high hp))).
  { intros v. unfold vclamp. apply Forall_forall. intros x Hx.
    apply in_map_iff in Hx as (y & <- & _). apply clamp_inverted. lra. }
  split.
  - intros ag lc r a H. unfold run_action, explore_action in H.
    apply bind_Ok_inv in H as (noise & _ & H).
    apply bind_Ok_inv in H as (s & _ & H).
    injection H as <-. apply Hc.
  - intros target acts ns z na H. unfold smoothed_action in H.
    apply bind_Ok_inv in H as (raw & _ & H).
    apply bind_Ok_inv in H as (s & _ & H).
    injection H as <-. apply Forall_forall. intros row Hrow.
    apply in_map_iff in Hrow as (row0 & <- & _). apply Hc.
Qed.

End InvertedBounds.

Lemma inverted_bounds_collapse_witness :
  exists a,
    run_action Toy.hp_inverted true (Toy.fresh Toy.hp_inverted) Toy.locals0
               Toy.step_rand0 = Ok a
    /\ Forall (fun x => x == -1) a.
Proof.
  destruct (run_action Toy.hp_inverted true (Toy.fresh Toy.hp_inverted)
                       Toy.locals0 Toy.step_rand0) as [a|x] eqn:E;
    [|vm_compute in E; discriminate].
  exists a. split; [reflexivity|].
  destruct (inverted_bounds_collapse Toy.W Toy.hp_inverted ltac:(reflexivity))
    as (Hrun & _).
  exact (Hrun _ _ _ _ E).
Defined.

(** ** The trackers *)

Lemma le_best_refl (b : Best) : le_best b b.
Proof.
  destruct b; cbn; [exact I | apply Qle_refl].
Qed.

Lemma gt_best_le (x : Q) (b : Best) :
  gt_best x b = true -> le_best b (Fin x).
Proof.
  destruct b as [|q]; cbn; [trivial|].
  intros H. apply Qltb_lt in H. lra.
Qed.

Section Trackers.

Variable W : Collaborators.

Lemma average_block_tracker (episode : Z) (ag : Agent W) (tk : Trackers) :
  let tk' := snd (average_block episode ag tk) in
  best_reward tk' = best_reward tk
  /\ le_best (best_average_reward tk) (best_average_reward tk').
Proof.
  unfold average_block.
  destruct (_ =? 0)%Z; cbn [snd]; [|split; [reflexivity | apply le_best_refl]].
  destruct (gt_best _ (best_average_reward tk)) eqn:E; cbn [snd].
  - split; [reflexivity|]. cbn. apply gt_best_le. exact E.
  - split; [reflexivity | apply le_best_refl].
Qed.

(** X15. Across the end of an episode neither tracker ever goes down;
    [best_reward] is left alone in evaluation mode and at episode 0, whose
    return therefore never counts as a best reward. *)
Theorem trackers_only_improve (is_training : bool) (episode : Z) (x now : Q)
        (ag ag' : Agent W) (tk tk' : Trackers) :
  episode_end is_training episode x now ag tk = Ok (ag', tk') ->
  le_best (best_reward tk) (best_reward tk')
  /\ le_best (best_average_reward tk) (best_average_reward tk')
  /\ (is_training = false \/ (episode <= 0)%Z ->
      best_reward tk' = best_reward tk).
Proof.
  unfold episode_end. destruct is_training.
  - set (ag1 := if Qltb 10 _ then _ else _).
    pose proof (average_block_tracker episode ag1 tk) as Hav.
    destruct (average_block episode ag1 tk) as [ag2 tk2]. cbn [snd] in Hav.
    destruct Hav as (Hbr & Hba).
    intros H. apply best_block_frame in H
      as (Hba' & [(_ & ->)|(pct & Hgt & Hep & _ & Hbr')]).
    + rewrite Hbr. split; [apply le_best_refl|]. split; [exact Hba|].
      intros _. reflexivity.
    + rewrite Hba', Hbr'. rewrite Hbr in Hgt.
      split; [apply gt_best_le; exact Hgt|]. split; [exact Hba|].
      intros [Hf|Hle]; [discriminate | lia].
  - intros H. injection H as _ <-.
    split; [apply le_best_refl|]. split; [apply le_best_refl|]. reflexivity.
Qed.

End Trackers.

Lemma trackers_only_improve_witness :
  exists ag' tk',
    episode_end true 0 5 0 (Toy.fresh Toy.hp) (mkTrackers NegInf NegInf)
    = Ok (ag', tk')
    /\ best_reward tk' = NegInf.
Proof.
  destruct (episode_end true 0 5 0 (Toy.fresh Toy.hp) (mkTrackers NegInf NegInf))
    as [[ag' tk']|x] eqn:E; [|vm_compute in E; discriminate].
  exists ag', tk'. split; [reflexivity|].
  destruct (trackers_only_improve Toy.W _ _ _ _ _ _ _ _ E) as (_ & _ & H0).
  apply H0. right. lia.
Defined.

(** ** The reward graph *)

Lemma fold_min_le (l : list Q) (acc : Q) :
  fold_left Qmin l acc <= acc
  /\ forall v, In v l -> fold_left Qmin l acc <= v.
Proof.
  revert acc. induction l as [|x l IH]; intros acc; cbn.
  - split; [apply Qle_refl | intros v []].
  - destruct (IH (Qmin acc x)) as (H1 & H2). split.
    + apply Qle_trans with (Qmin acc x); [exact H1 | apply Q.le_min_l].
    + intros v [<-|Hv]; [|auto].
      apply Qle_trans with (Qmin acc x); [exact H1 | apply Q.le_min_r].
Qed.

Lemma fold_max_ge (l : list Q) (acc : Q) :
  acc <= fold_left Qmax l acc
  /\ forall v, In v l -> v <= fold_left Qmax l acc.
Proof.
  revert acc. induction l as [|x l IH]; intros acc; cbn.
  - split; [apply Qle_refl | intros v []].
  - destruct (IH (Qmax acc x)) as (H1 & H2). split.
    + apply Qle_trans with (Qmax acc x); [apply Q.le_max_l | exact H1].
    + intros v [<-|Hv]; [|auto].
      apply Qle_trans with (Qmax acc x); [apply Q.le_max_r | exact H1].
Qed.

Lemma list_min_le (l : list Q) (m v : Q) :
  list_min l = Some m -> In v l -> m <= v.
Proof.
  destruct l as [|x l]; [discriminate|]. cbn. intros H. injection H as <-.
  destruct (fold_min_le l x) as (H1 & H2). intros [<-|Hv]; auto.
Qed.

Lemma list_max_ge (l : list Q) (m v : Q) :
  list_max l = Some m -> In v l -> v <= m.
Proof.
  destruct l as [|x l]; [discriminate|]. cbn. intros H. injection H as <-.
  destruct (fold_max_ge l x) as (H1 & H2). intros [<-|Hv]; auto.
Qed.

Lemma nth_error_map_seq {A : Type} (f : nat -> A) (n x : nat) :
  nth_error (map f (seq 0 n)) x = if Nat.ltb x n then Some (f x) else None.
Proof.
  destruct (Nat.ltb_spec x n) as [H|H].
  - rewrite (map_nth_error f x (seq 0 n) (d := x)); [reflexivity|].
    rewrite nth_error_nth' with (d := 0%nat) by (rewrite length_seq; exact H).
    rewrite seq_nth by exact H. reflexivity.
  - apply nth_error_None. rewrite length_map, length_seq. exact H.
Qed.

(** What a drawn graph consists of. *)
Lemma save_graph_Some (rewards : list Q) (g : Graph) :
  save_graph rewards = Some g ->
  rewards <> []
  /\ mean_rewards g
     = map (fun x => mean (slice (x - 99) (x + 1) rewards)) (seq 0 (length rewards))
  /\ mean_total g
     = map (fun x => mean (slice 0 (x + 1) rewards)) (seq 0 (length rewards))
  /\ exists a b c d,
       list_min (mean_rewards g) = Some a /\ list_min (mean_total g) = Some b
       /\ list_max (mean_rewards g) = Some c /\ list_max (mean_total g) = Some d
       /\ ylim g = (Qmin a b, Qmax c d).
Proof.
  unfold save_graph.
  destruct (list_min (map _ _)) as [a|] eqn:Ea; [|discriminate].
  destruct (list_min (map (fun x => mean (slice 0 _ _)) _)) as [b|] eqn:Eb;
    [|discriminate].
  destruct (list_max (map _ _)) as [c|] eqn:Ec; [|discriminate].
  destruct (list_max (map (fun x => mean (slice 0 _ _)) _)) as [d|] eqn:Ed;
    [|discriminate].
  intros H. injection H as <-. cbn [mean_rewards mean_total ylim].
  split; [intros ->; discriminate|].
  split; [reflexivity|]. split; [reflexivity|].
  exists a, b, c, d. auto.
Qed.

Lemma save_graph_nonempty (rewards : list Q) :
  rewards <> [] -> exists g, save_graph rewards = Some g.
Proof.
  destruct rewards as [|r rewards]; [contradiction|]. intros _.
  unfold save_graph. cbn [length seq map list_min list_max].
  eexists. reflexivity.
Qed.

(** X16. The two series of the graph have one point per episode.  Point [x] of
    the cumulative series is the mean of the first [x + 1] returns; point
    [x] of the windowed series is the mean of the last 100 of them (of all
    of them while there are fewer), so over the first 100 episodes the two
    series coincide; and the last point of the windowed series is the mean
    of the last 100 returns of the whole history, the number [run] logs and
    compares at every hundredth episode. *)
Theorem save_graph_series (rewards : list Q) (g : Graph) :
  save_graph rewards = Some g ->
  length (mean_rewards g) = length rewards
  /\ length (mean_total g) = length rewards
  /\ (forall x v, nth_error (mean_total g) x = Some v ->
      v = mean (firstn (x + 1) rewards))
  /\ (forall x v, nth_error (mean_rewards g) x = Some v ->
      v = mean (lastn 100 (firstn (x + 1) rewards)))
  /\ (forall x, (x < 100)%nat ->
      nth_error (mean_rewards g) x = nth_error (mean_total g) x)
  /\ (forall d, last (mean_rewards g) d = mean (lastn 100 rewards))
  /\ (forall d, last (mean_total g) d = mean rewards).
Proof.
  intros H. destruct (save_graph_Some _ _ H) as (Hne & -> & -> & _).
  split; [rewrite length_map, length_seq; reflexivity|].
  split; [rewrite length_map, length_seq; reflexivity|].
  split.
  { intros x v Hx. rewrite nth_error_map_seq in Hx.
    destruct (Nat.ltb x (length rewards)); [|discriminate].
    injection Hx as <-. reflexivity. }
  split.
  { intros x v Hx. rewrite nth_error_map_seq in Hx.
    destruct (Nat.ltb_spec x (length rewards)) as [Hlt|]; [|discriminate].
    injection Hx as <-. unfold slice, lastn.
    rewrite length_firstn. do 2 f_equal. lia. }
  split.
  { intros x Hx. rewrite !nth_error_map_seq.
    destruct (Nat.ltb x (length rewards)); [|reflexivity].
    replace (x - 99)%nat with 0%nat by lia. reflexivity. }
  assert (Hn : exists m, length rewards = S m).
  { destruct rewards; [contradiction | eexists; reflexivity]. }
  destruct Hn as (m & Hm). rewrite Hm, seq_S, !map_app. cbn [map].
  split; intros d; rewrite last_last; unfold slice, lastn;
    rewrite firstn_all2 by lia.
  - do 2 f_equal. lia.
  - reflexivity.
Qed.

(** X17. Both y-axes get the same limits, and these cover both series: no point
    of either curve falls outside the drawn range. *)
Theorem save_graph_ylim (rewards : list Q) (g : Graph) :
  save_graph rewards = Some g ->
  forall v, In v (mean_rewards g) \/ In v (mean_total g) ->
            fst (ylim g) <= v /\ v <= snd (ylim g).
Proof.
  intros H v Hv.
  destruct (save_graph_Some _ _ H)
    as (_ & _ & _ & a & b & c & d & Ha & Hb & Hc & Hd & ->).
  cbn [fst snd]. destruct Hv as [Hv|Hv].
  - split.
    + apply Qle_trans with a; [apply Q.le_min_l | exact (list_min_le _ _ _ Ha Hv)].
    + apply Qle_trans with c; [exact (list_max_ge _ _ _ Hc Hv) | apply Q.le_max_l].
  - split.
    + apply Qle_trans with b; [apply Q.le_min_r | exact (list_min_le _ _ _ Hb Hv)].
    + apply Qle_trans with d; [exact (list_max_ge _ _ _ Hd Hv) | apply Q.le_max_r].
Qed.

Lemma save_graph_series_witness :
  exists g,
    save_graph [4; 2; 6] = Some g
    /\ last (mean_total g) 0 = mean [4; 2; 6]
    /\ length (mean_rewards g) = 3%nat.
Proof.
  destruct (save_graph [4; 2; 6]) as [g|] eqn:E; [|vm_compute in E; discriminate].
  exists g. split; [reflexivity|].
  destruct (save_graph_series _ _ E) as (Hl & _ & _ & _ & _ & _ & Hlast).
  split; [apply Hlast | exact Hl].
Defined.

Lemma save_graph_ylim_witness :
  exists g,
    save_graph [4; 2; 6] = Some g
    /\ fst (ylim g) <= mean [4; 2; 6] /\ mean [4; 2; 6] <= snd (ylim g).
Proof.
  destruct (save_graph [4; 2; 6]) as [g|] eqn:E; [|vm_compute in E; discriminate].
  exists g. split; [reflexivity|].
  apply (save_graph_ylim _ _ E). right.
  vm_compute in E. injection E as <-. cbn. right. right. left. reflexivity.
Defined.

Section GraphRefresh.

Variable W : Collaborators.

(** X18. At the end of a training episode the graph is redrawn exactly when more
    than 10 seconds have passed since it was last drawn, and the time of
    that drawing becomes the new reference; otherwise neither happens.
    [save_graph] refuses an empty history, but the history handed to it
    here holds at least this episode's return, so the drawing never fails
    for that reason. *)
Theorem graph_refresh (episode : Z) (x now : Q) (ag ag' : Agent W)
        (tk tk' : Trackers) :
  episode_end true episode x now ag tk = Ok (ag', tk') ->
  (if Qltb 10 (now - last_graph_update_time ag) then
     last_graph_update_time ag' = now
     /\ count is_save_graph (trace ag') = S (count is_save_graph (trace ag))
   else
     last_graph_update_time ag' = last_graph_update_time ag
     /\ count is_save_graph (trace ag') = count is_save_graph (trace ag))
  /\ save_graph [] = None
  /\ exists g, save_graph (rewards_per_episode ag') = Some g.
Proof.
  intros H. split; [|split; [reflexivity|]].
  - revert H. unfold episode_end, average_block, best_block.
    destruct (Qltb 10 _); destruct (_ =? 0)%Z;
      [destruct (gt_best _ (best_average_reward tk))| |
       destruct (gt_best _ (best_average_reward tk))|];
      cbn; destruct (_ && _); cbn;
      intros H; try apply bind_Ok_inv in H as (pct & _ & H);
      injection H as <- _;
      cbn [last_graph_update_time trace emit save];
      rewrite ?count_app; cbn; split; try reflexivity; lia.
  - apply save_graph_nonempty.
    apply episode_end_frame in H as (Hr & _). rewrite Hr.
    intros E. apply (f_equal (@length _)) in E. rewrite length_app in E.
    cbn in E. lia.
Qed.

End GraphRefresh.

Lemma graph_refresh_witness :
  exists ag' tk',
    episode_end true 3 5 11 (Toy.fresh Toy.hp) (mkTrackers NegInf NegInf)
    = Ok (ag', tk')
    /\ last_graph_update_time ag' = 11.
Proof.
  destruct (episode_end true 3 5 11 (Toy.fresh Toy.hp) (mkTrackers NegInf NegInf))
    as [[ag' tk']|x] eqn:E; [|vm_compute in E; discriminate].
  exists ag', tk'. split; [reflexivity|].
  destruct (graph_refresh Toy.W _ _ _ _ _ _ _ E) as (Ht & _).
  cbn in Ht. apply Ht.
Defined.

(** ** Sampling the whole store *)

Lemma map_nth_seq {A : Type} (l : list A) (d : A) :
  map (fun p => nth p l d) (seq 0 (length l)) = l.
Proof.
  apply nth_ext with (d := d) (d' := d).
  - rewrite length_map, length_seq. reflexivity.
  - intros n Hn. rewrite length_map, length_seq in Hn.
    rewrite nth_indep with (d' := nth 0 l d)
      by (rewrite length_map, length_seq; exact Hn).
    rewrite (map_nth (fun p => nth p l d) (seq 0 (length l)) 0%nat n).
    rewrite seq_nth by exact Hn. reflexivity.
Qed.

Lemma rows_of_draw (pop batch : list Transition) (d : list nat) (t0 : Transition) :
  length batch = length d ->
  (forall i p, nth_error d i = Some p ->
     exists t, nth_error pop p = Some t /\ nth_error batch i = Some t) ->
  batch = map (fun p => nth p pop t0) d.
Proof.
  revert batch. induction d as [|p d IH]; intros [|t batch] Hl Hrows;
    cbn in Hl; try discriminate; [reflexivity|].
  cbn [map]. f_equal.
  - destruct (Hrows 0%nat p eq_refl) as (t' & Hp & Ht). cbn in Ht.
    injection Ht as <-. symmetry. apply nth_error_nth. exact Hp.
  - apply IH; [lia|]. intros i q Hi. exact (Hrows (S i) q Hi).
Qed.

(** X19. Asking [sample] for as many transitions as the store holds returns every
    stored transition exactly once, in some order: the rows of the batch are
    a permutation of the store. *)
Theorem sample_whole_store (rb : ReplayBuffer) (d : list nat)
        (b : ReplayBuffer.Batch) :
  ReplayBuffer.sample rb (Z.of_nat (ReplayBuffer.size rb)) d = Ok b ->
  exists rows,
    Permutation rows (buffer rb)
    /\ ReplayBuffer.states b = map t_state rows
    /\ ReplayBuffer.actions b = map t_action rows
    /\ ReplayBuffer.rewards b = map t_reward rows
    /\ ReplayBuffer.next_states b = map t_next_state rows
    /\ ReplayBuffer.dones b = map t_done rows.
Proof.
  unfold ReplayBuffer.size. intros H.
  apply sample_Ok in H as (batch & Hs & Hne & ->).
  exists batch. cbn. split; [|repeat split].
  apply random_sample_Ok in Hs as (_ & (Hlen & Hnd & Hlt) & Hl & Hrows).
  destruct batch as [|t0 batch0] eqn:Eb; [contradiction|]. rewrite <- Eb in *.
  assert (Hbd : length batch = length d) by lia.
  rewrite (rows_of_draw (buffer rb) batch d t0 Hbd Hrows).
  apply Permutation_trans
    with (map (fun p => nth p (buffer rb) t0) (seq 0 (length (buffer rb))));
    [|rewrite map_nth_seq; apply Permutation_refl].
  apply Permutation_map.
  apply NoDup_Permutation_bis; [exact Hnd | rewrite length_seq; lia|].
  intros p Hp. apply in_seq. rewrite Forall_forall in Hlt.
  specialize (Hlt p Hp). lia.
Qed.

Lemma sample_whole_store_witness :
  exists b rows,
    ReplayBuffer.sample (replay_buffer (Toy.stocked Toy.hp)) 3
                        [2%nat; 0%nat; 1%nat] = Ok b
    /\ Permutation rows [Toy.t1; Toy.t2; Toy.t3]
    /\ ReplayBuffer.rewards b = map t_reward rows.
Proof.
  destruct (ReplayBuffer.sample (replay_buffer (Toy.stocked Toy.hp)) 3
                                [2%nat; 0%nat; 1%nat]) as [b|x] eqn:E;
    [|vm_compute in E; discriminate].
  exists b.
  destruct (sample_whole_store (replay_buffer (Toy.stocked Toy.hp))
              [2%nat; 0%nat; 1%nat] b E) as (rows & Hp & _ & _ & Hr & _).
  exists rows. split; [reflexivity|]. split; [exact Hp | exact Hr].
Defined.

(** ** What the learning step leaves alone *)

Section TrainFrame.

Variable W : Collaborators.
Variable hp : Hyper.

(** X20. A learning step works on the networks only: it neither adds to nor
    removes from the replay store, does not touch the environment, the
    history of returns, the graph clock or the checkpoint files, and emits
    no event other than its own updates. *)
Theorem train_leaves_orchestrator_state (ag ag' : Agent W) (r : TrainRand) :
  train hp ag r = Ok ag' ->
  replay_buffer ag' = replay_buffer ag
  /\ env ag' = env ag
  /\ rewards_per_episode ag' = rewards_per_episode ag
  /\ last_graph_update_time ag' = last_graph_update_time ag
  /\ disk ag' = disk ag
  /\ episodes ag' = episodes ag
  /\ exists evs,
       trace ag' = trace ag ++ evs
       /\ Forall (fun e => is_critic_step e = true \/ is_actor_step e = true
                           \/ is_target_sync e = true) evs.
Proof.
  unfold train. intros H.
  apply bind_Ok_inv in H as (b & _ & H).
  apply bind_Ok_inv in H as (tq & _ & H).
  destruct (critic_optimize W _ _ _ _ _) as [copt c].
  destruct (policy_freq hp =? 0)%Z; [discriminate|].
  destruct (total_it ag mod policy_freq hp =? 0)%Z.
  - destruct (actor_optimize W _ _ _ _) as [aopt a].
    injection H as <-. cbn. repeat (split; [reflexivity|]).
    exists [CriticStep tq; ActorStep; TargetSync].
    split; [rewrite <- app_assoc; reflexivity|].
    constructor; [left; reflexivity|].
    constructor; [right; left; reflexivity|].
    constructor; [right; right; reflexivity | constructor].
  - injection H as <-. cbn. repeat (split; [reflexivity|]).
    exists [CriticStep tq]. split; [reflexivity|].
    constructor; [left; reflexivity | constructor].
Qed.

End TrainFrame.

Lemma train_leaves_orchestrator_state_witness :
  exists ag',
    train Toy.hp (Toy.stocked Toy.hp) Toy.rand = Ok ag'
    /\ replay_buffer ag' = replay_buffer (Toy.stocked Toy.hp).
Proof.
  destruct (train Toy.hp (Toy.stocked Toy.hp) Toy.rand) as [ag'|x] eqn:E;
    [|vm_compute in E; discriminate].
  exists ag'. split; [reflexivity|].
  destruct (train_leaves_orchestrator_state Toy.W Toy.hp _ _ _ E) as (Hb & _).
  exact Hb.
Defined.

(** ** What a checkpoint holds *)

Section CheckpointContent.

Variable W : Collaborators.

(** X21. When the end of a training episode writes a checkpoint, the files hold
    the live policy and critic parameters the agent has at that moment (not
    the target networks); when it writes none, the files are left as they
    were.  A later [load] therefore restores the networks of the last
    hundredth episode whose average was a new best. *)
Theorem checkpoint_holds_live_networks (episode : Z) (x now : Q)
        (ag ag' : Agent W) (tk tk' : Trackers) :
  episode_end true episode x now ag tk = Ok (ag', tk') ->
  (checkpoint_due episode (rewards_per_episode ag') tk = true ->
   disk ag' = Some (actor ag', critic ag')
   /\ exists ag'', load ag' = Ok ag''
                   /\ actor ag'' = actor ag' /\ critic ag'' = critic ag')
  /\ (checkpoint_due episode (rewards_per_episode ag') tk = false ->
      disk ag' = disk ag).
Proof.
  intros H.
  destruct (episode_end_saves _ _ _ _ _ _ _ _ H) as (_ & _ & Hd).
  destruct (episode_end_frame _ _ _ _ _ _ _ _ _ H)
    as (_ & _ & _ & _ & Ha & Hc & _).
  split; intros Hdue; rewrite Hdue in Hd.
  - rewrite Ha, Hc. split; [exact Hd|].
    unfold load. rewrite Hd. eexists. split; [reflexivity|].
    cbn. split; congruence.
  - exact Hd.
Qed.

End CheckpointContent.

Lemma checkpoint_holds_live_networks_witness :
  exists ag' tk',
    episode_end true 99 5 0 (Toy.fresh Toy.hp) (mkTrackers (Fin 2) NegInf)
    = Ok (ag', tk')
    /\ disk ag' = Some ([[1 # 2]], [[1]]).
Proof.
  destruct (episode_end true 99 5 0 (Toy.fresh Toy.hp) (mkTrackers (Fin 2) NegInf))
    as [[ag' tk']|x] eqn:E; [|vm_compute in E; discriminate].
  exists ag', tk'. split; [reflexivity|].
  destruct (checkpoint_holds_live_networks Toy.W _ _ _ _ _ _ _ E) as (Hdue & _).
  destruct (episode_end_frame _ _ _ _ _ _ _ _ _ E)
    as (Hr & _ & _ & _ & Ha & Hc & _).
  destruct Hdue as (Hd & _).
  - rewrite Hr. reflexivity.
  - rewrite Hd, Ha, Hc. reflexivity.
Defined.

Lemma sample_failure_modes_witness :
  ReplayBuffer.sample (replay_buffer (Toy.stocked Toy.hp)) 4 [0%nat] = Raise SampleLarger
  /\ ReplayBuffer.sample (replay_buffer (Toy.stocked Toy.hp)) (-1) [] = Raise SampleNegative.
Proof.
  destruct (sample_failure_modes (replay_buffer (Toy.stocked Toy.hp)) 4 [0%nat])
    as (_ & Hlarge & _).
  destruct (sample_failure_modes (replay_buffer (Toy.stocked Toy.hp)) (-1) [])
    as (Hneg & _).
  split; [apply Hlarge; cbn; lia | apply Hneg; lia].
Defined.

Lemma soft_update_extremes_witness :
  params_eq (soft_update 0 [[1; 2]; [3]] [[5; 6]; [7]]) [[5; 6]; [7]]
  /\ params_eq (soft_update 1 [[1; 2]; [3]] [[5; 6]; [7]]) [[1; 2]; [3]].
Proof.
  destruct (soft_update_extremes 0) as (H0 & _).
  destruct (soft_update_extremes 1) as (_ & H1 & _).
  split; [apply H0; reflexivity|].
  apply H1; [reflexivity|]. repeat constructor.
Defined.
